(** * Funding-rate arbitrage bot: a shallow embedding of [funding_rate_bot.py]

    The Python program polls five exchanges for perpetual-futures funding
    rates, pairs same-symbol records, and reports the pairs whose rate spread
    beats a fee model.  This file embeds the collector and the reporting path
    and states the specification's properties about them.

    Conventions of the embedding:
    - a Python [float] is an IEEE-754 binary64 number, i.e. Rocq's primitive
      [float]; the arithmetic and the comparisons are the primitive ones, so
      rounding, infinities and NaN behave as they do in the interpreter;
    - a [str] is a [string]; the configuration dictionaries, which are only
      read, are [gmap string float]; the [symbol_groups] dictionary, whose
      iteration order matters, is an association list in insertion order;
    - a [datetime] is a number of microseconds since the epoch. *)

From Stdlib Require Import Floats ZArith Lia Sorted Permutation.
From stdpp Require Import gmap strings list.

Set Default Proof Using "Type".
Set Warnings "-inexact-float,-register-all".

(** ** Data model (lines 63-85) *)

Definition datetime : Type := Z.

Record FundingRateData : Type := mkFundingRateData {
  exchange : string;
  symbol : string;
  rate : float;
  timestamp : datetime;
  next_funding_time : option datetime;
  mark_price : option float
}.

Record ArbitrageOpportunity : Type := mkArbitrageOpportunity {
  long_exchange : string;
  short_exchange : string;
  op_symbol : string;
  long_rate : float;
  short_rate : float;
  rate_difference : float;
  potential_profit_8h : float;
  estimated_fees : float;
  net_profit_8h : float;
  op_next_funding_time : option datetime
}.

(** The collector object.  [exchanges] is the insertion-ordered dictionary of
    enabled adapters; its value type is a parameter because an adapter is any
    object with a [get_funding_rates] method. *)
Record FundingRateCollector (Api : Type) : Type := mkFundingRateCollector {
  exchanges : list (string * Api);
  fee_structure : gmap string float;
  slippage_estimates : gmap string float
}.
Arguments mkFundingRateCollector {Api} _ _ _.
Arguments exchanges {Api} _.
Arguments fee_structure {Api} _.
Arguments slippage_estimates {Api} _.

(** ** The configuration (lines 28-50)

    [config] is imported from [config.py] when that file exists and is the
    built-in [DefaultConfig] otherwise. *)

Record Config : Type := mkConfig {
  SYMBOLS : list string;
  MIN_PROFIT_THRESHOLD : float;
  POSITION_SIZE : float;
  SCAN_INTERVAL : Z;
  ENABLED_EXCHANGES : list string;
  EXCHANGE_FEES : gmap string float;
  SLIPPAGE_ESTIMATES : gmap string float;
  DATA_DIR : string
}.

Definition DefaultConfig : Config :=
  {| SYMBOLS := ["BTC"; "ETH"; "SOL"; "ADA"; "MATIC"; "DOT"; "AVAX"];
     MIN_PROFIT_THRESHOLD := 0.005;
     POSITION_SIZE := 1000;
     SCAN_INTERVAL := 30;
     ENABLED_EXCHANGES := ["binance"; "bybit"; "okx"; "bitget"; "kucoin"];
     EXCHANGE_FEES :=
       list_to_map [("Binance", 0.08); ("Bybit", 0.08); ("OKX", 0.09);
                    ("Bitget", 0.10); ("KuCoin", 0.09)]%float;
     SLIPPAGE_ESTIMATES :=
       list_to_map [("BTC", 0.01); ("ETH", 0.02); ("SOL", 0.03); ("ADA", 0.04);
                    ("MATIC", 0.04); ("DOT", 0.03); ("AVAX", 0.03)]%float;
     DATA_DIR := "data" |}.

(** [d.get(key, dflt)] on a dictionary of floats. *)
Definition dict_get (d : gmap string float) (key : string) (dflt : float) : float :=
  match d !! key with
  | Some v => v
  | None => dflt
  end.

(** [a or b] on two optional datetimes: a [datetime] object is always truthy,
    [None] is falsy. *)
Definition py_or {A : Type} (a b : option A) : option A :=
  match a with
  | Some _ => a
  | None => b
  end.

(** ** The fee model (lines 449-474) *)

Section Collector.
Context {Api : Type}.
Variable self : FundingRateCollector Api.

Definition _calculate_arbitrage_profit
    (long_rate short_rate : FundingRateData) (symbol : string)
    : ArbitrageOpportunity :=
  let rate_diff := (rate long_rate - rate short_rate)%float in
  let long_fees := (dict_get (fee_structure self) (exchange long_rate) 0.1 / 100)%float in
  let short_fees := (dict_get (fee_structure self) (exchange short_rate) 0.1 / 100)%float in
  let slippage := (dict_get (slippage_estimates self) symbol 0.05 / 100)%float in
  let total_fees := (long_fees + short_fees + (2 * slippage) + 0.002)%float in
  let gross_profit_8h := rate_diff in
  let net_profit_8h := (gross_profit_8h - total_fees)%float in
  {| long_exchange := exchange long_rate;
     short_exchange := exchange short_rate;
     op_symbol := symbol;
     long_rate := rate long_rate;
     short_rate := rate short_rate;
     rate_difference := rate_diff;
     potential_profit_8h := gross_profit_8h;
     estimated_fees := total_fees;
     net_profit_8h := net_profit_8h;
     op_next_funding_time :=
       py_or (next_funding_time long_rate) (next_funding_time short_rate) |}.

(** ** The pairwise search (lines 417-447) *)

(** One pass of the grouping loop, lines 423-425: the record joins the list
    stored under its symbol, and a symbol seen for the first time gets a new
    entry after the existing ones. *)
Fixpoint group_append (symbol_groups : list (string * list FundingRateData))
    (data : FundingRateData) : list (string * list FundingRateData) :=
  match symbol_groups with
  | [] => [(symbol data, [data])]
  | (s, rates) :: rest =>
      if String.eqb s (symbol data) then (s, rates ++ [data]) :: rest
      else (s, rates) :: group_append rest data
  end.

(** Lines 435-438: which record of a pair is the long leg. *)
Definition legs (rate1 rate2 : FundingRateData) : FundingRateData * FundingRateData :=
  if (rate rate2 <? rate rate1)%float then (rate1, rate2) else (rate2, rate1).

(** The body of the two index loops, lines 433-445. *)
Definition visit_pair (symbol : string) (rate1 rate2 : FundingRateData)
    (opportunities : list ArbitrageOpportunity) : list ArbitrageOpportunity :=
  let '(long_rate, short_rate) := legs rate1 rate2 in
  let rate_diff := (rate long_rate - rate short_rate)%float in
  if (0.0001 <? rate_diff)%float then
    let opportunity := _calculate_arbitrage_profit long_rate short_rate symbol in
    if (0 <? net_profit_8h opportunity)%float then opportunities ++ [opportunity]
    else opportunities
  else opportunities.

(** [for i in range(len(rates)): for j in range(i + 1, len(rates))].  The
    subscripts are in range by construction; the [None] branch stands for the
    [IndexError] that cannot happen. *)
Definition scan_group (symbol : string) (rates : list FundingRateData)
    (opportunities : list ArbitrageOpportunity) : list ArbitrageOpportunity :=
  foldl (fun opps i =>
    foldl (fun opps j =>
      match rates !! i, rates !! j with
      | Some rate1, Some rate2 => visit_pair symbol rate1 rate2 opps
      | _, _ => opps
      end) opps (seq (i + 1) (length rates - (i + 1))))
    opportunities (seq 0 (length rates)).

End Collector.

(** [sorted(xs, key=key, reverse=True)].  Python's sort is stable, and with
    [reverse=True] elements whose keys compare equal still keep their input
    order.  On keys that are totally ordered by [<] (no NaN) that fixes the
    result, which is the one this insertion sort computes: an element goes
    after the elements with a strictly larger key and before the others. *)
Section Sorted.
Context {A : Type}.
Variable key : A -> float.

Fixpoint insert_desc (x : A) (l : list A) : list A :=
  match l with
  | [] => [x]
  | y :: l' =>
      if (key x <? key y)%float then y :: insert_desc x l' else x :: l
  end.

Definition sorted_reverse (l : list A) : list A := foldr insert_desc [] l.

(** [desc a b]: [a] may stand before [b] in a non-increasing sequence. *)
Definition desc (a b : A) : Prop := (key b <=? key a)%float = true.

End Sorted.

Definition find_arbitrage_opportunities {Api : Type} (self : FundingRateCollector Api)
    (funding_data : list FundingRateData) : list ArbitrageOpportunity :=
  let symbol_groups := foldl group_append [] funding_data in
  let opportunities :=
    foldl (fun opps '(symbol, rates) =>
      if (length rates <? 2)%nat then opps
      else scan_group self symbol rates opps) [] symbol_groups in
  sorted_reverse net_profit_8h opportunities.

(** ** Effects: responses, exceptions and the outside world (lines 87-124)

    What the program reads from the network is a decoded JSON document, a
    value of Python's [None], [bool], [int], [float], [str], [list] and
    [dict] types.  A [dict] keeps its keys in insertion order. *)

Inductive json : Type :=
  | JNull
  | JBool (b : bool)
  | JInt (n : Z)
  | JFloat (f : float)
  | JStr (s : string)
  | JList (l : list json)
  | JDict (d : list (string * json)).

(** The exceptions the adapters can meet; all derive from [Exception]. *)
Inductive exn : Type :=
  | TypeError | KeyError | IndexError | ValueError | AttributeError
  | OverflowError | OSError.

Inductive result (A : Type) : Type :=
  | Ok (a : A)
  | Raise (e : exn).
Arguments Ok {A} a.
Arguments Raise {A} e.

(** What [session.get(url, params=params, timeout=10)] can do: fail in
    transport (connection error, timeout), or deliver a response with a
    status code and a body that [response.json()] decodes, or fails to. *)
Inductive http_outcome : Type :=
  | TransportError
  | Response (status_code : Z) (body : option json).

(** The interpreter and the world around the program.  The scalar
    conversions are Python built-ins; they are parameters of the model. *)
Class Runtime : Type := {
  World : Type;
  session_get : string -> list (string * string) -> World -> http_outcome * World;
  datetime_now : World -> datetime * World;
  (** [float(x)] and [int(x)] *)
  py_float : json -> result float;
  py_int : json -> result Z;
  (** [datetime.fromtimestamp(n / 1000)] *)
  fromtimestamp_ms : Z -> result datetime;
  (** [t.strftime("%Y%m%d_%H%M%S")] and [t.isoformat()] *)
  strftime : datetime -> string;
  isoformat : datetime -> string
}.

(** Statements run in a state and either finish normally or raise; the state
    reached when an exception is raised is kept, as a mutated list or a
    consumed response is in Python. *)
Definition M (S A : Type) : Type := S -> result A * S.

#[global] Instance M_ret {S : Type} : MRet (M S) :=
  fun A a s => (Ok a, s).

#[global] Instance M_bind {S : Type} : MBind (M S) :=
  fun A B k m s =>
    match m s with
    | (Ok a, s') => k a s'
    | (Raise e, s') => (Raise e, s')
    end.

Definition raise {S A : Type} (e : exn) : M S A := fun s => (Raise e, s).

(** A pure step that may raise. *)
Definition lift_result {S A : Type} (r : result A) : M S A := fun s => (r, s).

(** [try: body / except Exception as e: handler] *)
Definition try_except {S A : Type} (body : M S A) (handler : exn -> M S A) : M S A :=
  fun s =>
    match body s with
    | (Ok a, s') => (Ok a, s')
    | (Raise e, s') => handler e s'
    end.

(** [for x in l: body] *)
Fixpoint for_each {S X : Type} (l : list X) (body : X -> M S unit) : M S unit :=
  match l with
  | [] => mret tt
  | x :: l' => body x ≫= fun _ => for_each l' body
  end.

(** The frame of a function that fills one local list ([funding_data],
    [all_funding_data]) while it talks to the world. *)
Record Frame `{Runtime} : Type := mkFrame {
  world : World;
  items : list FundingRateData
}.

(** A step on the world, run inside a frame. *)
Definition on_world `{Runtime} {A : Type} (m : M World A) : M Frame A :=
  fun fr =>
    let '(r, w) := m (world fr) in (r, {| world := w; items := items fr |}).

(** [xs.append(x)] and [xs.extend(l)] on the local list. *)
Definition append `{Runtime} (x : FundingRateData) : M Frame unit :=
  fun fr => (Ok tt, {| world := world fr; items := items fr ++ [x] |}).
Definition extend `{Runtime} (l : list FundingRateData) : M Frame unit :=
  fun fr => (Ok tt, {| world := world fr; items := items fr ++ l |}).

(** [xs = []; body; return xs]: an exception that leaves [body] leaves the
    function. *)
Definition returning_list `{Runtime} (body : M Frame unit)
    : M World (list FundingRateData) :=
  fun w =>
    match body {| world := w; items := [] |} with
    | (Ok _, fr) => (Ok (items fr), world fr)
    | (Raise e, fr) => (Raise e, world fr)
    end.

(** *** Python operations on decoded JSON *)

(** Truth value. *)
Definition truthy (v : json) : bool :=
  match v with
  | JNull => false
  | JBool b => b
  | JInt n => negb (n =? 0)%Z
  | JFloat f => negb (f =? 0)%float
  | JStr s => negb (String.eqb s "")
  | JList l => match l with [] => false | _ => true end
  | JDict d => match d with [] => false | _ => true end
  end.

Fixpoint assoc {V : Type} (key : string) (d : list (string * V)) : option V :=
  match d with
  | [] => None
  | (k, v) :: d' => if String.eqb k key then Some v else assoc key d'
  end.

(** [v == s] for a string [s]. *)
Definition eq_str (v : json) (s : string) : bool :=
  match v with
  | JStr s' => String.eqb s' s
  | _ => false
  end.

(** The characters of a string, as one-character strings. *)
Fixpoint chars (s : string) : list string :=
  match s with
  | EmptyString => []
  | String c s' => String c EmptyString :: chars s'
  end.

(** [sub in s] on strings. *)
Fixpoint contains_str (sub s : string) : bool :=
  if String.prefix sub s then true
  else match s with
       | EmptyString => false
       | String _ s' => contains_str sub s'
       end.

(** [key in v] *)
Definition py_in (key : string) (v : json) : result bool :=
  match v with
  | JDict d => Ok (match assoc key d with Some _ => true | None => false end)
  | JList l => Ok (existsb (fun x => eq_str x key) l)
  | JStr s => Ok (contains_str key s)
  | _ => Raise TypeError
  end.

(** [v[key]] for a string key *)
Definition subscript (v : json) (key : string) : result json :=
  match v with
  | JDict d => match assoc key d with Some x => Ok x | None => Raise KeyError end
  | _ => Raise TypeError
  end.

(** [v[0]]; the keys of a decoded JSON object are strings, so [0] is never
    one of them. *)
Definition subscript_0 (v : json) : result json :=
  match v with
  | JList l => match l with x :: _ => Ok x | [] => Raise IndexError end
  | JStr s => match s with
              | String c _ => Ok (JStr (String c EmptyString))
              | EmptyString => Raise IndexError
              end
  | JDict _ => Raise KeyError
  | _ => Raise TypeError
  end.

(** [v.get(key, dflt)] *)
Definition py_get (v : json) (key : string) (dflt : json) : result json :=
  match v with
  | JDict d => Ok (match assoc key d with Some x => x | None => dflt end)
  | _ => Raise AttributeError
  end.

(** The sequence [for item in v] runs over. *)
Definition py_iter (v : json) : result (list json) :=
  match v with
  | JList l => Ok l
  | JDict d => Ok (map (fun kv => JStr (fst kv)) d)
  | JStr s => Ok (map JStr (chars s))
  | _ => Raise TypeError
  end.

(** *** [ExchangeAPI] *)

Record ExchangeAPI : Type := mkExchangeAPI {
  base_url : string;
  name : string;
  symbol_mapping : list (string * string)
}.

(** [_make_request], lines 108-124.  [_rate_limit] only sleeps and is left
    out, as is logging.  The function returns the decoded body, or [None]
    after a transport failure, a status other than 200 or an undecodable
    body; it never raises. *)
Definition _make_request `{Runtime} (self : ExchangeAPI) (endpoint : string)
    (params : list (string * string)) : M World json :=
  fun w =>
    let url := (base_url self ++ "/" ++ endpoint)%string in
    match session_get url params w with
    | (Response status_code body, w') =>
        if (status_code =? 200)%Z then
          match body with
          | Some data => (Ok data, w')
          | None => (Ok JNull, w')
          end
        else (Ok JNull, w')
    | (TransportError, w') => (Ok JNull, w')
    end.

(** [datetime.now()] *)
Definition datetime_now_M `{Runtime} : M World datetime :=
  fun w => let '(t, w') := datetime_now w in (Ok t, w').

(** The inner search loop of the batch adapters, e.g. lines 147-152: the
    first base symbol whose exchange name equals [symbol_name]. *)
Fixpoint base_symbol_of (mapping : list (string * string)) (symbol_name : json)
    : option string :=
  match mapping with
  | [] => None
  | (base, full) :: rest =>
      if eq_str symbol_name full then Some base else base_symbol_of rest symbol_name
  end.

(** [if 'nextFundingTime' in item: ... fromtimestamp(int(item[...]) / 1000)] *)
Definition read_next_funding_time `{Runtime} {S : Type} (item : json)
    : M S (option datetime) :=
  has ← lift_result (py_in "nextFundingTime" item);
  if has : bool then
    raw ← lift_result (subscript item "nextFundingTime");
    n ← lift_result (py_int raw);
    t ← lift_result (fromtimestamp_ms n);
    mret (Some t)
  else mret None.

(** [base_symbol and base_symbol in symbols], with the base symbol found for
    [symbol_name]. *)
Definition wanted (mapping : list (string * string)) (symbol_name : json)
    (symbols : list string) : option string :=
  match base_symbol_of mapping symbol_name with
  | Some base_symbol =>
      if negb (String.eqb base_symbol "") && bool_decide (base_symbol ∈ symbols)
      then Some base_symbol else None
  | None => None
  end.

(** The text of a JSON string. *)
Definition str_of (v : json) : string :=
  match v with
  | JStr s => s
  | _ => ""
  end.

Definition usdt_mapping (suffix : string) : list (string * string) :=
  map (fun base => (base, (base ++ suffix)%string))
      ["BTC"; "ETH"; "SOL"; "ADA"; "MATIC"; "DOT"; "AVAX"].

(** ** The exchange adapters (lines 126-376)

    An adapter is an object with a [get_funding_rates] method; the collector
    only ever calls that method. *)

Definition Adapter `{Runtime} : Type := list string -> M World (list FundingRateData).

Module BinanceAPI.

Definition self : ExchangeAPI :=
  {| base_url := "https://fapi.binance.com"; name := "Binance";
     symbol_mapping := usdt_mapping "USDT" |}.

(** The body of [for item in data], lines 146-170. *)
Definition visit_item `{Runtime} (symbols : list string) (item : json) : M Frame unit :=
  symbol_name ← lift_result (py_get item "symbol" (JStr ""));
  match wanted (symbol_mapping self) symbol_name symbols with
  | Some base_symbol =>
      raw_rate ← lift_result (py_get item "lastFundingRate" (JInt 0));
      funding_rate ← lift_result (py_float raw_rate);
      next_funding_time ← read_next_funding_time item;
      now ← on_world datetime_now_M;
      raw_price ← lift_result (py_get item "markPrice" (JInt 0));
      mark_price ← lift_result (py_float raw_price);
      append {| exchange := "Binance"; symbol := base_symbol; rate := funding_rate;
                timestamp := now; next_funding_time := next_funding_time;
                mark_price := Some mark_price |}
  | None => mret tt
  end.

Definition get_funding_rates `{Runtime} : Adapter := fun symbols =>
  returning_list
    (try_except
       (data ← on_world (_make_request self "fapi/v1/premiumIndex" []);
        if negb (truthy data) then mret tt
        else
          data_items ← lift_result (py_iter data);
          for_each data_items (visit_item symbols))
       (fun _ => mret tt)).

End BinanceAPI.

Module BybitAPI.

Definition self : ExchangeAPI :=
  {| base_url := "https://api.bybit.com"; name := "Bybit";
     symbol_mapping := usdt_mapping "USDT" |}.

(** Lines 198-223. *)
Definition visit_item `{Runtime} (symbols : list string) (instrument : json)
    : M Frame unit :=
  symbol_name ← lift_result (py_get instrument "symbol" (JStr ""));
  match wanted (symbol_mapping self) symbol_name symbols with
  | Some base_symbol =>
      raw_rate ← lift_result (py_get instrument "fundingRate" (JInt 0));
      funding_rate ← lift_result (py_float raw_rate);
      next_funding_time ← read_next_funding_time instrument;
      now ← on_world datetime_now_M;
      raw_price ← lift_result (py_get instrument "markPrice" (JInt 0));
      mark_price ← lift_result (py_float raw_price);
      append {| exchange := "Bybit"; symbol := base_symbol; rate := funding_rate;
                timestamp := now; next_funding_time := next_funding_time;
                mark_price := Some mark_price |}
  | None => mret tt
  end.

Definition get_funding_rates `{Runtime} : Adapter := fun symbols =>
  returning_list
    (try_except
       (data ← on_world (_make_request self "v5/market/instruments-info"
                                       [("category", "linear")]);
        if negb (truthy data) then mret tt
        else
          has_result ← lift_result (py_in "result" data);
          if negb has_result then mret tt
          else
            result_field ← lift_result (subscript data "result");
            instruments ← lift_result (py_get result_field "list" (JList []));
            instrument_items ← lift_result (py_iter instruments);
            for_each instrument_items (visit_item symbols))
       (fun _ => mret tt)).

End BybitAPI.

Module OKXAPI.

Definition self : ExchangeAPI :=
  {| base_url := "https://www.okx.com"; name := "OKX";
     symbol_mapping := usdt_mapping "-USDT-SWAP" |}.

(** The [try] block of one symbol, lines 246-270. *)
Definition visit_symbol `{Runtime} (symbol : string) : M Frame unit :=
  match assoc symbol (symbol_mapping self) with
  | None => mret tt
  | Some okx_symbol =>
      data ← on_world (_make_request self "api/v5/public/funding-rate"
                                     [("instId", okx_symbol)]);
      usable ←
        (if truthy data then
           has_data ← lift_result (py_in "data" data);
           if has_data : bool then
             data_field ← lift_result (subscript data "data");
             mret (truthy data_field)
           else mret false
         else mret false);
      if usable : bool then
        data_field ← lift_result (subscript data "data");
        item ← lift_result (subscript_0 data_field);
        raw_rate ← lift_result (py_get item "fundingRate" (JInt 0));
        funding_rate ← lift_result (py_float raw_rate);
        next_funding_time ← read_next_funding_time item;
        now ← on_world datetime_now_M;
        append {| exchange := "OKX"; symbol := symbol; rate := funding_rate;
                  timestamp := now; next_funding_time := next_funding_time;
                  mark_price := None |}
      else mret tt
  end.

Definition get_funding_rates `{Runtime} : Adapter := fun symbols =>
  returning_list
    (for_each symbols (fun symbol =>
       try_except (visit_symbol symbol) (fun _ => mret tt))).

End OKXAPI.

Module BitgetAPI.

Definition self : ExchangeAPI :=
  {| base_url := "https://api.bitget.com"; name := "Bitget";
     symbol_mapping := usdt_mapping "USDT_UMCBL" |}.

(** Lines 298-320. *)
Definition visit_item `{Runtime} (symbols : list string) (item : json) : M Frame unit :=
  symbol_name ← lift_result (py_get item "symbol" (JStr ""));
  match wanted (symbol_mapping self) symbol_name symbols with
  | Some base_symbol =>
      ticker_data ← on_world (_make_request self "api/mix/v1/market/ticker"
                                            [("symbol", str_of symbol_name)]);
      usable ←
        (if truthy ticker_data then lift_result (py_in "data" ticker_data)
         else mret false);
      if usable : bool then
        ticker ← lift_result (subscript ticker_data "data");
        raw_rate ← lift_result (py_get ticker "fundingRate" (JInt 0));
        funding_rate ← lift_result (py_float raw_rate);
        now ← on_world datetime_now_M;
        append {| exchange := "Bitget"; symbol := base_symbol; rate := funding_rate;
                  timestamp := now; next_funding_time := None;
                  mark_price := None |}
      else mret tt
  | None => mret tt
  end.

Definition get_funding_rates `{Runtime} : Adapter := fun symbols =>
  returning_list
    (try_except
       (data ← on_world (_make_request self "api/mix/v1/market/contracts"
                                       [("productType", "umcbl")]);
        if negb (truthy data) then mret tt
        else
          has_data ← lift_result (py_in "data" data);
          if negb has_data then mret tt
          else
            data_field ← lift_result (subscript data "data");
            data_items ← lift_result (py_iter data_field);
            for_each data_items (visit_item symbols))
       (fun _ => mret tt)).

End BitgetAPI.

Module KuCoinAPI.

Definition self : ExchangeAPI :=
  {| base_url := "https://api-futures.kucoin.com"; name := "KuCoin";
     symbol_mapping :=
       [("BTC", "XBTUSDTM"); ("ETH", "ETHUSDTM"); ("SOL", "SOLUSDTM");
        ("ADA", "ADAUSDTM"); ("MATIC", "MATICUSDTM"); ("DOT", "DOTUSDTM");
        ("AVAX", "AVAXUSDTM")] |}.

(** [contract_data and contract_data.get('code') == '200000'], and the like. *)
Definition code_is_200000 {S : Type} (data : json) : M S bool :=
  if truthy data then
    code ← lift_result (py_get data "code" JNull);
    mret (eq_str code "200000")
  else mret false.

(** The [try] block of one symbol, lines 343-370. *)
Definition visit_symbol `{Runtime} (symbol : string) : M Frame unit :=
  match assoc symbol (symbol_mapping self) with
  | None => mret tt
  | Some kucoin_symbol =>
      data ← on_world (_make_request self
                (("api/v1/funding-rate/" ++ kucoin_symbol) ++ "/current")%string []);
      code_ok ← code_is_200000 data;
      usable ← (if code_ok : bool then lift_result (py_in "data" data) else mret false);
      if usable : bool then
        item ← lift_result (subscript data "data");
        raw_rate ← lift_result (py_get item "value" (JInt 0));
        funding_rate ← lift_result (py_float raw_rate);
        contract_data ← on_world (_make_request self
                          ("api/v1/contracts/" ++ kucoin_symbol)%string []);
        contract_ok ← code_is_200000 contract_data;
        '(funding_rate, mark_price) ←
          (if contract_ok : bool then
             contract_info ← lift_result (py_get contract_data "data" (JDict []));
             has_fee ← lift_result (py_in "fundingFeeRate" contract_info);
             funding_rate ←
               (if has_fee : bool then
                  raw_fee ← lift_result (subscript contract_info "fundingFeeRate");
                  lift_result (py_float raw_fee)
                else mret funding_rate);
             price ← lift_result (py_get contract_info "markPrice" JNull);
             mark_price ←
               (if truthy price then
                  raw_price ← lift_result (py_get contract_info "markPrice" (JInt 0));
                  mark ← lift_result (py_float raw_price);
                  mret (Some mark)
                else mret None);
             mret (funding_rate, mark_price)
           else mret (funding_rate, None));
        now ← on_world datetime_now_M;
        append {| exchange := "KuCoin"; symbol := symbol; rate := funding_rate;
                  timestamp := now; next_funding_time := None;
                  mark_price := mark_price |}
      else mret tt
  end.

Definition get_funding_rates `{Runtime} : Adapter := fun symbols =>
  returning_list
    (for_each symbols (fun symbol =>
       try_except (visit_symbol symbol) (fun _ => mret tt))).

End KuCoinAPI.

(** ** The collector (lines 378-415) *)

(** [FundingRateCollector.__init__]: the five adapters in dictionary order,
    restricted to the enabled ones, and the two tables of the configuration. *)
Definition new_collector `{Runtime} (config : Config) : FundingRateCollector Adapter :=
  let all_exchanges : list (string * Adapter) :=
    [("binance", BinanceAPI.get_funding_rates);
     ("bybit", BybitAPI.get_funding_rates);
     ("okx", OKXAPI.get_funding_rates);
     ("bitget", BitgetAPI.get_funding_rates);
     ("kucoin", KuCoinAPI.get_funding_rates)] in
  {| exchanges :=
       filter (fun kv => fst kv ∈ ENABLED_EXCHANGES config) all_exchanges;
     fee_structure := EXCHANGE_FEES config;
     slippage_estimates := SLIPPAGE_ESTIMATES config |}.

Definition collect_all_funding_rates `{Runtime}
    (self : FundingRateCollector Adapter) (symbols : list string)
    : M World (list FundingRateData) :=
  returning_list
    (for_each (exchanges self) (fun '(exchange_name, api) =>
       try_except
         (rates ← on_world (api symbols);
          extend rates)
         (fun _ => mret tt))).

(** What the collection loop amounts to: the adapters are called in order on
    the world the previous ones left, the lists of those that return are
    concatenated, and those that raise contribute nothing. *)
Fixpoint gathered `{Runtime} (apis : list (string * Adapter)) (symbols : list string)
    (w : World) : list FundingRateData * World :=
  match apis with
  | [] => ([], w)
  | (_, api) :: rest =>
      match api symbols w with
      | (Ok rates, w') =>
          let '(more, w'') := gathered rest symbols w' in (rates ++ more, w'')
      | (Raise _, w') => gathered rest symbols w'
      end
  end.

(** ** The bot: scanning, display and persistence (lines 476-578) *)

Record FundingRateBot `{Runtime} : Type := mkFundingRateBot {
  collector : FundingRateCollector Adapter;
  symbols : list string;
  min_profit_threshold : float;
  position_size : float;
  data_dir : string
}.

(** [FundingRateBot.__init__]; [data_dir] is [config.DATA_DIR], which
    [save_opportunities] reads from the global configuration. *)
Definition new_bot `{Runtime} (config : Config) : FundingRateBot :=
  {| collector := new_collector config;
     symbols := SYMBOLS config;
     min_profit_threshold := MIN_PROFIT_THRESHOLD config;
     position_size := POSITION_SIZE config;
     data_dir := DATA_DIR config |}.

(** What a scan leaves behind: the world, the lists handed to
    [display_opportunities], and the files written, each as the name given to
    [open] and the document given to [json.dump].  Printing and logging are
    otherwise not modelled, and opening and writing the file is taken to
    succeed (the directory is created at start-up, line 53). *)
Record Desk `{Runtime} : Type := mkDesk {
  env : World;
  displayed : list (list ArbitrageOpportunity);
  files : list (string * json)
}.

Definition on_env `{Runtime} {A : Type} (m : M World A) : M Desk A :=
  fun d =>
    let '(r, w) := m (env d) in
    (r, {| env := w; displayed := displayed d; files := files d |}).

Definition display_opportunities `{Runtime} (opportunities : list ArbitrageOpportunity)
    : M Desk unit :=
  fun d => (Ok tt, {| env := env d; displayed := displayed d ++ [opportunities];
                      files := files d |}).

(** [with open(filename, 'w') as f: json.dump(data, f, indent=2)] *)
Definition write_json `{Runtime} (filename : string) (data : json) : M Desk unit :=
  fun d => (Ok tt, {| env := env d; displayed := displayed d;
                      files := files d ++ [(filename, data)] |}).

(** The dictionary appended for one opportunity, lines 562-573, captured at
    time [now]. *)
Definition opportunity_entry `{Runtime} (self : FundingRateBot) (now : datetime)
    (op : ArbitrageOpportunity) : json :=
  JDict [("timestamp", JStr (isoformat now));
         ("symbol", JStr (op_symbol op));
         ("long_exchange", JStr (long_exchange op));
         ("short_exchange", JStr (short_exchange op));
         ("long_rate", JFloat (long_rate op));
         ("short_rate", JFloat (short_rate op));
         ("rate_difference", JFloat (rate_difference op));
         ("net_profit_8h_pct", JFloat (net_profit_8h op));
         ("estimated_profit_usd", JFloat (net_profit_8h op * position_size self));
         ("next_funding_time",
          match op_next_funding_time op with
          | Some t => JStr (isoformat t)
          | None => JNull
          end)].

(** [data = []; for op in opportunities: data.append({...})] *)
Fixpoint entries `{Runtime} (self : FundingRateBot)
    (opportunities : list ArbitrageOpportunity) : M Desk (list json) :=
  match opportunities with
  | [] => mret []
  | op :: rest =>
      now ← on_env datetime_now_M;
      data ← entries self rest;
      mret (opportunity_entry self now op :: data)
  end.

Definition save_opportunities `{Runtime} (self : FundingRateBot)
    (opportunities : list ArbitrageOpportunity) : M Desk unit :=
  now ← on_env datetime_now_M;
  let timestamp := strftime now in
  let filename :=
    (data_dir self ++ "/opportunities_" ++ timestamp ++ ".json")%string in
  data ← entries self opportunities;
  write_json filename (JList data).

(** [[op for op in opportunities if op.net_profit_8h >= threshold]] *)
Definition meets_threshold `{Runtime} (self : FundingRateBot)
    (op : ArbitrageOpportunity) : Prop :=
  (min_profit_threshold self <=? net_profit_8h op)%float = true.

#[global] Instance meets_threshold_dec `{Runtime} self op :
  Decision (meets_threshold self op).
Proof. unfold meets_threshold. apply _. Defined.

(** [scan_opportunities], lines 485-516; [display_funding_summary] and the
    other prints are left out. *)
Definition scan_opportunities `{Runtime} (self : FundingRateBot) : M Desk unit :=
  try_except
    (funding_data ← on_env (collect_all_funding_rates (collector self) (symbols self));
     match funding_data with
     | [] => mret tt
     | _ =>
         let opportunities :=
           find_arbitrage_opportunities (collector self) funding_data in
         let profitable_ops := filter (meets_threshold self) opportunities in
         match profitable_ops with
         | _ :: _ =>
             display_opportunities (take 5 profitable_ops) ≫= fun _ =>
             save_opportunities self profitable_ops
         | [] =>
             match opportunities with
             | _ :: _ => display_opportunities (take 3 opportunities)
             | [] => mret tt
             end
         end
     end)
    (fun _ => mret tt).

(** ** The search, described as list comprehensions

    The definitions below say in closed form what the loops of
    [find_arbitrage_opportunities] enumerate; the lemmas further down prove
    that the loops compute exactly this. *)

(** The pairs [(l[i], l[j])] with [i < j], by increasing [i] then [j]. *)
Fixpoint pairs {A : Type} (l : list A) : list (A * A) :=
  match l with
  | [] => []
  | x :: l' => map (pair x) l' ++ pairs l'
  end.

(** The distinct elements, in the order of their first occurrence. *)
Definition first_occurrences (l : list string) : list string :=
  foldl (fun seen s => if decide (s ∈ seen) then seen else seen ++ [s]) [] l.

(** The records of one symbol, in input order. *)
Definition records_of (s : string) (funding_data : list FundingRateData)
    : list FundingRateData :=
  filter (fun d => symbol d = s) funding_data.

Definition groups_of (funding_data : list FundingRateData)
    : list (string * list FundingRateData) :=
  map (fun s => (s, records_of s funding_data))
      (first_occurrences (map symbol funding_data)).

(** A pair survives the spread test when the rate difference of its legs
    exceeds one basis point; the opportunity is constructed for the pairs
    that survive. *)
Definition constructed {Api : Type} (self : FundingRateCollector Api)
    (s : string) (p : FundingRateData * FundingRateData)
    : list ArbitrageOpportunity :=
  let '(long_rate, short_rate) := legs (fst p) (snd p) in
  if (0.0001 <? rate long_rate - rate short_rate)%float
  then [_calculate_arbitrage_profit self long_rate short_rate s]
  else [].

Definition constructed_opportunities {Api : Type} (self : FundingRateCollector Api)
    (funding_data : list FundingRateData) : list ArbitrageOpportunity :=
  flat_map (fun g => flat_map (constructed self (fst g)) (pairs (snd g)))
           (groups_of funding_data).

Definition profitable (o : ArbitrageOpportunity) : Prop :=
  (0 <? net_profit_8h o)%float = true.

#[global] Instance profitable_dec o : Decision (profitable o).
Proof. unfold profitable. apply _. Defined.

(** The opportunities in the order the loops append them, before sorting. *)
Definition enumerated {Api : Type} (self : FundingRateCollector Api)
    (funding_data : list FundingRateData) : list ArbitrageOpportunity :=
  filter profitable (constructed_opportunities self funding_data).

(** ** Vocabulary of the statements *)

(** The comparison of two floats, [None] when one of them is NaN. *)
Definition fcmp (x y : float) : option comparison :=
  SFcompare (Prim2SF x) (Prim2SF y).

Definition is_NaN (x : float) : bool :=
  match Prim2SF x with S754_nan => true | _ => false end.

(** Non-negative floats: zeros of either sign, positive numbers, [+inf]. *)
Definition SFnonneg (f : spec_float) : bool :=
  match f with
  | S754_zero _ | S754_infinity false | S754_finite false _ _ => true
  | _ => false
  end.

Definition nonneg (x : float) : Prop := (0 <=? x)%float = true.

(** [api] always hands a list back to its caller. *)
Definition never_raises `{Runtime} (api : Adapter) : Prop :=
  forall symbols w, exists rates w', api symbols w = (Ok rates, w').

(** What the loop of a per-symbol adapter amounts to: each symbol is visited
    on the world the previous one left and with nothing in hand; what its
    round appended is kept whether the round finished or raised. *)
Fixpoint per_symbol `{Runtime} (visit : string -> M Frame unit)
    (symbols : list string) (w : World) : list FundingRateData * World :=
  match symbols with
  | [] => ([], w)
  | symbol :: rest =>
      let fr := snd (visit symbol {| world := w; items := [] |}) in
      let '(more, w') := per_symbol visit rest (world fr) in
      (items fr ++ more, w')
  end.

(** A statement that only appends to the local list and never reads it. *)
Definition appends_only `{Runtime} {A : Type} (m : M Frame A) : Prop :=
  forall w acc,
    m {| world := w; items := acc |}
    = (fst (m {| world := w; items := [] |}),
       {| world := world (snd (m {| world := w; items := [] |}));
          items := acc ++ items (snd (m {| world := w; items := [] |})) |}).

(** A desk that differs from [d] in the world only. *)
Definition with_env `{Runtime} (d : Desk) (w : World) : Desk :=
  {| env := w; displayed := displayed d; files := files d |}.

(** The fields of a saved entry, in the order they are written. *)
Definition entry_fields : list string :=
  ["timestamp"; "symbol"; "long_exchange"; "short_exchange"; "long_rate";
   "short_rate"; "rate_difference"; "net_profit_8h_pct"; "estimated_profit_usd";
   "next_funding_time"].

Definition entry_has_fields (fields : list string) (entry : json) : Prop :=
  match entry with
  | JDict d => map fst d = fields
  | _ => False
  end.

(** [hi] and [lo] are the two records [r1] and [r2], [hi] being the one
    with the strictly larger rate. *)
Definition larger_rate_first (r1 r2 hi lo : FundingRateData) : Prop :=
  (rate lo <? rate hi)%float = true /\
  ((hi = r1 /\ lo = r2) \/ (hi = r2 /\ lo = r1)).

(** The per-leg fee and the slippage [_calculate_arbitrage_profit] charges,
    as fractions: the table entry divided by 100, or the default. *)
Definition leg_fee {Api : Type} (self : FundingRateCollector Api) (exchange : string)
    : float :=
  match fee_structure self !! exchange with
  | Some v => (v / 100)%float
  | None => 0.001%float
  end.

Definition symbol_slippage {Api : Type} (self : FundingRateCollector Api)
    (symbol : string) : float :=
  match slippage_estimates self !! symbol with
  | Some v => (v / 100)%float
  | None => 0.0005%float
  end.

(** [n] successive readings of the clock, and the world after them. *)
Fixpoint clock_readings `{Runtime} (n : nat) (w : World) : list datetime * World :=
  match n with
  | 0 => ([], w)
  | S n' =>
      let '(t, w1) := datetime_now w in
      let '(ts, w2) := clock_readings n' w1 in
      (t :: ts, w2)
  end.

(** The name of the file a save at time [now] writes. *)
Definition opportunities_file `{Runtime} (self : FundingRateBot) (now : datetime)
    : string :=
  (data_dir self ++ "/opportunities_" ++ strftime now ++ ".json")%string.

(** A saved entry that mirrors the opportunity [op], captured at [now]. *)
Definition entry_mirrors `{Runtime} (self : FundingRateBot) (now : datetime)
    (op : ArbitrageOpportunity) (entry : json) : Prop :=
  subscript entry "timestamp" = Ok (JStr (isoformat now)) /\
  subscript entry "symbol" = Ok (JStr (op_symbol op)) /\
  subscript entry "long_exchange" = Ok (JStr (long_exchange op)) /\
  subscript entry "short_exchange" = Ok (JStr (short_exchange op)) /\
  subscript entry "long_rate" = Ok (JFloat (long_rate op)) /\
  subscript entry "short_rate" = Ok (JFloat (short_rate op)) /\
  subscript entry "rate_difference" = Ok (JFloat (rate_difference op)) /\
  subscript entry "net_profit_8h_pct" = Ok (JFloat (net_profit_8h op)) /\
  subscript entry "estimated_profit_usd"
  = Ok (JFloat (net_profit_8h op * position_size self)) /\
  subscript entry "next_funding_time"
  = Ok (match op_next_funding_time op with
        | Some t => JStr (isoformat t)
        | None => JNull
        end).

(** ** Sample inputs

    A collector with the built-in tables and no adapter, and a few records
    to evaluate the search on. *)

Module Sample.
Definition plain_collector : FundingRateCollector unit :=
  {| exchanges := [];
     fee_structure := EXCHANGE_FEES DefaultConfig;
     slippage_estimates := SLIPPAGE_ESTIMATES DefaultConfig |}.

Definition record (ex sym : string) (r : float) : FundingRateData :=
  {| exchange := ex; symbol := sym; rate := r; timestamp := 0%Z;
     next_funding_time := None; mark_price := None |}.

(** The two worked examples of the specification, section 8. *)
Definition narrow_spread : list FundingRateData :=
  [record "Binance" "BTC" 0.0010; record "Bybit" "BTC" 0.0002].
Definition wide_spread : list FundingRateData :=
  [record "Binance" "BTC" 0.0060; record "Bybit" "BTC" 0.0002].

(** Two records of one exchange for one symbol. *)
Definition same_exchange : list FundingRateData :=
  [record "Binance" "BTC" 0.0002; record "Binance" "BTC" 0.0060].

(** A fee table with a rebate, i.e. a negative entry. *)
Definition rebate_collector : FundingRateCollector unit :=
  {| exchanges := [];
     fee_structure := {[ "Binance" := (-1)%float ]};
     slippage_estimates := SLIPPAGE_ESTIMATES DefaultConfig |}.

(** The same tables on an object with another [exchanges] dictionary. *)
Definition other_collector : FundingRateCollector nat :=
  {| exchanges := [("binance", 1)];
     fee_structure := EXCHANGE_FEES DefaultConfig;
     slippage_estimates := SLIPPAGE_ESTIMATES DefaultConfig |}.

(** Two symbols with the same slippage estimate and the same rates: their
    opportunities tie on net profit. *)
Definition tied : list FundingRateData :=
  [record "Binance" "DOT" 0.0060; record "Binance" "SOL" 0.0060;
   record "Bybit" "SOL" 0.0002; record "Bybit" "DOT" 0.0002].

Definition wide_opportunity : ArbitrageOpportunity :=
  _calculate_arbitrage_profit plain_collector
    (record "Binance" "BTC" 0.0060) (record "Bybit" "BTC" 0.0002) "BTC".

(** A small world for the adapters: the state counts the clock reads; OKX
    answers for BTC, fails in transport for ETH, answers 500 for SOL, sends
    an undecodable body for ADA and a payload of the wrong shape for DOT;
    Binance answers with one list. *)
Definition okx_btc : json :=
  JDict [("code", JStr "0");
         ("data", JList [JDict [("instId", JStr "BTC-USDT-SWAP");
                                ("fundingRate", JStr "0.0060");
                                ("nextFundingTime", JStr "1700000000000")]])].

Definition binance_index : json :=
  JList [JDict [("symbol", JStr "BTCUSDT"); ("lastFundingRate", JStr "0.0002");
                ("markPrice", JStr "35000.5"); ("nextFundingTime", JInt 1700000000000)];
         JDict [("symbol", JStr "XRPUSDT"); ("lastFundingRate", JStr "0.0001")];
         JDict [("symbol", JStr "ETHUSDT"); ("lastFundingRate", JStr "n/a")];
         JDict [("symbol", JStr "SOLUSDT"); ("lastFundingRate", JStr "0.0002")]].

Definition sample_get (url : string) (params : list (string * string)) (w : nat)
    : http_outcome * nat :=
  if String.eqb url "https://fapi.binance.com/fapi/v1/premiumIndex"
  then (Response 200 (Some binance_index), w)
  else if String.eqb url "https://www.okx.com/api/v5/public/funding-rate" then
    match assoc "instId" params with
    | Some "BTC-USDT-SWAP" => (Response 200 (Some okx_btc), w)
    | Some "ETH-USDT-SWAP" => (TransportError, w)
    | Some "SOL-USDT-SWAP" => (Response 500 (Some okx_btc), w)
    | Some "ADA-USDT-SWAP" => (Response 200 None, w)
    | _ => (Response 200 (Some (JDict [("data", JList [JInt 5])])), w)
    end
  else (Response 404 None, w).

Definition sample_float (v : json) : result float :=
  match v with
  | JFloat f => Ok f
  | JStr "0.0060" => Ok 0.0060%float
  | JStr "0.0002" => Ok 0.0002%float
  | JStr "0.0001" => Ok 0.0001%float
  | JStr "35000.5" => Ok 35000.5%float
  | JStr _ => Raise ValueError
  | JInt 0 => Ok 0%float
  | _ => Raise TypeError
  end.

Definition sample_int (v : json) : result Z :=
  match v with
  | JInt n => Ok n
  | JStr "1700000000000" => Ok 1700000000000%Z
  | JStr _ => Raise ValueError
  | _ => Raise TypeError
  end.

#[local] Instance runtime : Runtime :=
  {| World := nat;
     session_get := sample_get;
     datetime_now := fun w => (Z.of_nat w, S w);
     py_float := sample_float;
     py_int := sample_int;
     fromtimestamp_ms := fun n => Ok (n * 1000)%Z;
     strftime := fun _ => "20231114_221320";
     isoformat := fun _ => "2023-11-14T22:13:20" |}.

(** An adapter that raises, between two that answer. *)
Definition broken : Adapter := fun _ => raise OSError.

Definition patchy_collector : FundingRateCollector Adapter :=
  {| exchanges := [("okx", OKXAPI.get_funding_rates); ("broken", broken);
                   ("binance", BinanceAPI.get_funding_rates)];
     fee_structure := EXCHANGE_FEES DefaultConfig;
     slippage_estimates := SLIPPAGE_ESTIMATES DefaultConfig |}.

(** A bot on that collector with a threshold of 0.1 percent. *)
Definition patchy_bot : FundingRateBot :=
  {| collector := patchy_collector;
     symbols := ["BTC"; "ETH"; "SOL"; "ADA"; "DOT"];
     min_profit_threshold := 0.001;
     position_size := 1000;
     data_dir := "data" |}.

(** The same bot with the built-in threshold of 0.5 percent. *)
Definition strict_bot : FundingRateBot :=
  {| collector := patchy_collector;
     symbols := ["BTC"; "ETH"; "SOL"; "ADA"; "DOT"];
     min_profit_threshold := MIN_PROFIT_THRESHOLD DefaultConfig;
     position_size := POSITION_SIZE DefaultConfig;
     data_dir := DATA_DIR DefaultConfig |}.

Definition empty_desk : Desk := {| env := 0; displayed := []; files := [] |}.
End Sample.

(** ** Vocabulary of the further properties

    What a statement does to the local list: *)

(** A statement that leaves the local list as it is, whether it finishes or
    raises. *)
Definition silent `{Runtime} {A : Type} (m : M Frame A) : Prop :=
  forall fr, items (snd (m fr)) = items fr.

(** A statement that appends at most one record, one that satisfies [P], as
    the last thing it does: when it raises the list is as before. *)
Definition one_record `{Runtime} (P : FundingRateData -> Prop) (m : M Frame unit)
    : Prop :=
  forall fr,
    match m fr with
    | (Ok _, fr') =>
        items fr' = items fr \/ exists r, items fr' = items fr ++ [r] /\ P r
    | (Raise _, fr') => items fr' = items fr
    end.

(** A statement that only appends records satisfying [P]. *)
Definition extends `{Runtime} {A : Type} (P : FundingRateData -> Prop)
    (m : M Frame A) : Prop :=
  forall fr, exists rs, items (snd (m fr)) = items fr ++ rs /\ Forall P rs.

(** A record an adapter may return: labelled with the adapter's exchange,
    for a requested symbol that the adapter has an instrument for. *)
Definition record_of (label : string) (self : ExchangeAPI) (symbols : list string)
    (r : FundingRateData) : Prop :=
  exchange r = label /\ In (symbol r) symbols /\
  is_Some (assoc (symbol r) (symbol_mapping self)).

(** A response the adapters cannot use: no response, a status other than
    200, an undecodable body, or a body that is falsy ([null], [0], [""],
    an empty array or object). *)
Definition unusable (outcome : http_outcome) : bool :=
  match outcome with
  | Response status_code (Some body) =>
      negb (status_code =? 200)%Z || negb (truthy body)
  | _ => true
  end.

(** An adapter that always hands back a list, of records that are its own. *)
Definition answers_for `{Runtime} (label : string) (self : ExchangeAPI)
    (api : Adapter) : Prop :=
  forall symbols w, exists rates w',
    api symbols w = (Ok rates, w') /\ Forall (record_of label self symbols) rates.

(** The three adapters that list a whole market, each with the endpoint and
    the parameters of its first request (lines 141, 192 and 293). *)
Definition listing_requests `{Runtime}
    : list (ExchangeAPI * string * list (string * string) * Adapter) :=
  [(BinanceAPI.self, "fapi/v1/premiumIndex", [], BinanceAPI.get_funding_rates);
   (BybitAPI.self, "v5/market/instruments-info", [("category", "linear")],
    BybitAPI.get_funding_rates);
   (BitgetAPI.self, "api/mix/v1/market/contracts", [("productType", "umcbl")],
    BitgetAPI.get_funding_rates)].

(** ** [display_funding_summary] (lines 518-532)

    What the function prints: one line [exchange: n symbols] per exchange
    and the total.  One pass of its grouping loop, lines 524-527: *)
Fixpoint exchange_append (exchange_data : list (string * list FundingRateData))
    (data : FundingRateData) : list (string * list FundingRateData) :=
  match exchange_data with
  | [] => [(exchange data, [data])]
  | (e, rates) :: rest =>
      if String.eqb e (exchange data) then (e, rates ++ [data]) :: rest
      else (e, rates) :: exchange_append rest data
  end.

(** The records of one exchange, in input order. *)
Definition records_at (e : string) (funding_data : list FundingRateData)
    : list FundingRateData :=
  filter (fun d => exchange d = e) funding_data.

(** The lines as pairs of an exchange and a count, and the total. *)
Definition display_funding_summary (funding_data : list FundingRateData)
    : list (string * nat) * nat :=
  let exchange_data := foldl exchange_append [] funding_data in
  (map (fun '(exchange, rates) => (exchange, length rates)) exchange_data,
   length funding_data).

(** ** [test_connectivity] (lines 602-616)

    What the function prints for one exchange: [OK (n rates)], [Pas de
    données] or [Erreur]. *)
Inductive verdict : Type :=
  | Reachable (n : nat)
  | NoData
  | Failed (e : exn).

(** The console: the world and the verdicts printed so far. *)
Record Console `{Runtime} : Type := mkConsole {
  outside : World;
  printed : list (string * verdict)
}.

Definition on_outside `{Runtime} {A : Type} (m : M World A) : M Console A :=
  fun c =>
    let '(r, w) := m (outside c) in (r, {| outside := w; printed := printed c |}).

Definition print_verdict `{Runtime} (exchange_name : string) (v : verdict)
    : M Console unit :=
  fun c => (Ok tt, {| outside := outside c;
                      printed := printed c ++ [(exchange_name, v)] |}).

Definition test_connectivity `{Runtime} (bot : FundingRateBot) : M Console unit :=
  for_each (exchanges (collector bot)) (fun '(exchange_name, api) =>
    try_except
      (rates ← on_outside (api ["BTC"]);
       match rates with
       | _ :: _ => print_verdict exchange_name (Reachable (length rates))
       | [] => print_verdict exchange_name NoData
       end)
      (fun e => print_verdict exchange_name (Failed e))).

(** The exchange labels, in the order the collector's constructor lists the
    adapters. *)
Definition labels : list string := ["Binance"; "Bybit"; "OKX"; "Bitget"; "KuCoin"].

(** ** Further sample inputs *)

Module Scenario.

(** The wide spread with its records in the other order, and with a third
    record in front. *)
Definition swapped_spread : list FundingRateData :=
  [Sample.record "Bybit" "BTC" 0.0002; Sample.record "Binance" "BTC" 0.0060].
Definition longer_spread : list FundingRateData :=
  Sample.record "OKX" "BTC" 0.0003 :: Sample.wide_spread.

(** A bot that counts every positive net profit as profitable. *)
Definition open_bot : FundingRateBot (H := Sample.runtime) :=
  {| collector := Sample.patchy_collector;
     symbols := ["BTC"; "ETH"; "SOL"];
     min_profit_threshold := 0;
     position_size := 1000;
     data_dir := "data" |}.

End Scenario.

(** * Supporting lemmas *)

(** ** Order facts about binary64 numbers

    The primitive comparisons are specified by [SFcompare] on the decoded
    number; the facts below are what the search and the sort rely on. *)

Module FloatOrder.

Ltac cmp_cases :=
  repeat match goal with
  | H : context [Z.compare ?a ?b] |- _ => destruct (Z.compare_spec a b)
  | |- context [Z.compare ?a ?b] => destruct (Z.compare_spec a b)
  | H : context [Pos.compare_cont Eq ?a ?b] |- _ =>
      change (Pos.compare_cont Eq a b) with (Pos.compare a b) in *;
      destruct (Pos.compare_spec a b)
  | |- context [Pos.compare_cont Eq ?a ?b] =>
      change (Pos.compare_cont Eq a b) with (Pos.compare a b) in *;
      destruct (Pos.compare_spec a b)
  end.

Ltac sign_cases sx sy sz :=
  simpl; try congruence;
  try (destruct sx; congruence); try (destruct sy; congruence);
  try (destruct sz; congruence);
  try (destruct sx, sy; congruence); try (destruct sx, sz; congruence);
  try (destruct sy, sz; congruence); try (destruct sx, sy, sz; congruence).

Lemma SFcompare_antisym x y :
  SFcompare y x = option_map CompOpp (SFcompare x y).
Proof.
  destruct x as [sx|sx| |sx mx ex], y as [sy|sy| |sy my ey]; simpl;
    try reflexivity; try (destruct sx; reflexivity);
    try (destruct sy; reflexivity); try (destruct sx, sy; reflexivity).
  f_equal. destruct sx, sy; simpl; try reflexivity;
    cmp_cases; subst; simpl; try reflexivity; lia.
Qed.

Lemma SFcompare_trans c x y z :
  SFcompare x y = Some c -> SFcompare y z = Some c -> SFcompare x z = Some c.
Proof.
  destruct x as [sx|sx| |sx mx ex], y as [sy|sy| |sy my ey],
    z as [sz|sz| |sz mz ez]; sign_cases sx sy sz.
  intros H1 H2. injection H1 as H1. injection H2 as H2. f_equal.
  destruct sx, sy, sz; simpl in *; try congruence; subst c.
  all: cmp_cases; subst; simpl in *; try congruence; lia.
Qed.

Lemma SFcompare_Eq_l c x y z :
  SFcompare x y = Some Eq -> SFcompare y z = Some c -> SFcompare x z = Some c.
Proof.
  destruct x as [sx|sx| |sx mx ex], y as [sy|sy| |sy my ey],
    z as [sz|sz| |sz mz ez]; sign_cases sx sy sz.
  intros H1 H2. injection H1 as H1. injection H2 as H2. f_equal.
  destruct sx, sy, sz; simpl in *; try congruence; subst c.
  all: cmp_cases; subst; simpl in *; try congruence; lia.
Qed.

Lemma SFcompare_Eq_r c x y z :
  SFcompare x y = Some c -> SFcompare y z = Some Eq -> SFcompare x z = Some c.
Proof.
  intros H1 H2.
  assert (E1 : SFcompare y x = Some (CompOpp c))
    by (rewrite SFcompare_antisym, H1; reflexivity).
  assert (E2 : SFcompare z y = Some Eq)
    by (rewrite SFcompare_antisym, H2; reflexivity).
  rewrite SFcompare_antisym, (SFcompare_Eq_l _ _ _ _ E2 E1). simpl.
  now rewrite CompOpp_involutive.
Qed.

Lemma ltb_fcmp x y : (x <? y)%float = true <-> fcmp x y = Some Lt.
Proof.
  rewrite FloatAxioms.ltb_spec. unfold SFltb, fcmp.
  destruct (SFcompare _ _) as [[]|]; split; congruence.
Qed.

Lemma leb_fcmp x y :
  (x <=? y)%float = true <-> fcmp x y = Some Lt \/ fcmp x y = Some Eq.
Proof.
  rewrite FloatAxioms.leb_spec. unfold SFleb, fcmp.
  destruct (SFcompare _ _) as [[]|]; split; intros; try tauto; try congruence.
  all: destruct H; congruence.
Qed.

Lemma eqb_fcmp x y : (x =? y)%float = true <-> fcmp x y = Some Eq.
Proof.
  rewrite FloatAxioms.eqb_spec. unfold SFeqb, fcmp.
  destruct (SFcompare _ _) as [[]|]; split; congruence.
Qed.

Lemma fcmp_antisym x y : fcmp y x = option_map CompOpp (fcmp x y).
Proof. apply SFcompare_antisym. Qed.

Lemma fcmp_total x y :
  is_NaN x = false -> is_NaN y = false -> is_Some (fcmp x y).
Proof.
  unfold is_NaN, fcmp.
  destruct (Prim2SF x), (Prim2SF y); simpl; intros; try discriminate; eauto.
Qed.

Lemma fcmp_not_nan x y c :
  fcmp x y = Some c -> is_NaN x = false /\ is_NaN y = false.
Proof.
  unfold is_NaN, fcmp.
  destruct (Prim2SF x), (Prim2SF y); simpl; intros; try discriminate; auto.
Qed.

Lemma ltb_not_nan x y :
  (x <? y)%float = true -> is_NaN x = false /\ is_NaN y = false.
Proof. rewrite ltb_fcmp. apply fcmp_not_nan. Qed.

Lemma ltb_leb x y : (x <? y)%float = true -> (x <=? y)%float = true.
Proof. rewrite ltb_fcmp, leb_fcmp. auto. Qed.

Lemma ltb_leb_false x y : (x <? y)%float = true -> (y <=? x)%float = false.
Proof.
  intros H. apply ltb_fcmp in H. apply not_true_is_false. intros Hle.
  apply leb_fcmp in Hle. rewrite (fcmp_antisym x y), H in Hle. simpl in Hle.
  destruct Hle; discriminate.
Qed.

(** Without NaN the order is total: what is not below is above or equal. *)
Lemma not_ltb_leb x y :
  is_NaN x = false -> is_NaN y = false ->
  (x <? y)%float = false -> (y <=? x)%float = true.
Proof.
  intros Hx Hy Hlt. destruct (fcmp_total x y Hx Hy) as [c Hc].
  apply leb_fcmp. rewrite (fcmp_antisym x y), Hc.
  destruct c; simpl; auto.
  apply ltb_fcmp in Hc. congruence.
Qed.

Lemma leb_trans x y z :
  (x <=? y)%float = true -> (y <=? z)%float = true -> (x <=? z)%float = true.
Proof.
  rewrite !leb_fcmp. unfold fcmp. intros [H1|H1] [H2|H2].
  - left. eapply SFcompare_trans; eauto.
  - left. eapply SFcompare_Eq_r; eauto.
  - left. eapply SFcompare_Eq_l; eauto.
  - right. eapply SFcompare_trans; eauto.
Qed.

(** A key strictly above one of a class is outside the class. *)
Lemma ltb_eqb_false x y k :
  (x <? y)%float = true -> (x =? k)%float = true -> (y =? k)%float = false.
Proof.
  intros Hlt Hx. apply not_true_is_false. intros Hy.
  rewrite eqb_fcmp in Hx, Hy. rewrite ltb_fcmp in Hlt. unfold fcmp in *.
  assert (Hk : SFcompare (Prim2SF k) (Prim2SF y) = Some Eq)
    by (rewrite SFcompare_antisym, Hy; reflexivity).
  pose proof (SFcompare_Eq_l _ _ _ _ Hx Hk) as Hxy. congruence.
Qed.

(** A difference is NaN as soon as one operand is. *)
Lemma sub_not_nan x y :
  is_NaN (x - y)%float = false -> is_NaN x = false /\ is_NaN y = false.
Proof.
  unfold is_NaN. rewrite FloatAxioms.sub_spec. unfold SF64sub, SFsub.
  destruct (Prim2SF x), (Prim2SF y); simpl; intros; try discriminate; auto.
Qed.

End FloatOrder.

(** ** Rounding facts for the fee floor

    The fee sum ends with [+ 0.002].  That the sum is at least [0.002] when
    the other terms are non-negative needs two facts about binary64
    arithmetic: sums, the quotient by [100] and the double of non-negative
    numbers are non-negative, and round-to-nearest never takes a sum below a
    representable number that the exact sum dominates. *)

Module Rounding.
Local Open Scope Z_scope.

Lemma digits2_pos_bounds m :
  2 ^ (Zpos (digits2_pos m) - 1) <= Zpos m < 2 ^ Zpos (digits2_pos m).
Proof.
  induction m as [p IH|p IH|]; simpl digits2_pos.
  - rewrite Pos2Z.inj_succ, Z.pow_succ_r by lia.
    replace (Z.succ (Zpos (digits2_pos p)) - 1)
      with (Z.succ (Zpos (digits2_pos p) - 1)) by lia.
    rewrite Z.pow_succ_r by lia. lia.
  - rewrite Pos2Z.inj_succ, Z.pow_succ_r by lia.
    replace (Z.succ (Zpos (digits2_pos p)) - 1)
      with (Z.succ (Zpos (digits2_pos p) - 1)) by lia.
    rewrite Z.pow_succ_r by lia. lia.
  - simpl. lia.
Qed.

Lemma Zdigits2_bounds m :
  0 < m -> 2 ^ (Zdigits2 m - 1) <= m < 2 ^ Zdigits2 m.
Proof. destruct m; try lia. intros _. apply digits2_pos_bounds. Qed.

Lemma Zdigits2_pos m : 0 < m -> 0 < Zdigits2 m.
Proof. destruct m; simpl; lia. Qed.

(** A multiple [a * 2^k] below [m] forces [m] to have [k] more digits. *)
Lemma Zdigits2_shift_le a k m :
  0 < a -> 0 <= k -> a * 2 ^ k <= m -> Zdigits2 a + k <= Zdigits2 m.
Proof.
  intros Ha Hk Hle.
  assert (Hm : 0 < m) by nia.
  pose proof (Zdigits2_bounds a Ha) as [Ha1 _].
  pose proof (Zdigits2_bounds m Hm) as [_ Hm2].
  pose proof (Zdigits2_pos a Ha). pose proof (Zdigits2_pos m Hm).
  assert (H2 : 2 ^ (Zdigits2 a - 1 + k) < 2 ^ Zdigits2 m).
  { rewrite Z.pow_add_r by lia. nia. }
  apply Z.pow_lt_mono_r_iff in H2; lia.
Qed.

Lemma shr_1_m mrs : 0 <= shr_m mrs -> shr_m (shr_1 mrs) = shr_m mrs / 2.
Proof.
  destruct mrs as [m r s]. simpl. intros Hm. rewrite <- Z.div2_div.
  destruct m as [|[p|p|]|p]; try reflexivity. lia.
Qed.

Lemma iter_pos_shr_1_m p mrs :
  0 <= shr_m mrs -> shr_m (SpecFloat.iter_pos shr_1 p mrs) = shr_m mrs / 2 ^ Zpos p.
Proof.
  revert mrs. induction p as [p IH|p IH|]; intros mrs Hm; simpl SpecFloat.iter_pos.
  - assert (H1 : 0 <= shr_m (shr_1 mrs)).
    { rewrite shr_1_m by assumption. apply Z.div_pos; lia. }
    assert (H2 : 0 <= shr_m (SpecFloat.iter_pos shr_1 p (shr_1 mrs))).
    { rewrite IH by assumption. apply Z.div_pos; [assumption|]. apply Z.pow_pos_nonneg; lia. }
    rewrite IH, IH, shr_1_m by assumption.
    rewrite !Z.div_div by (try apply Z.pow_pos_nonneg; lia).
    f_equal. rewrite Pos2Z.inj_xI, <- Z.pow_add_r, <- (Z.pow_1_r 2) at 1 by lia.
    rewrite <- Z.pow_add_r by lia. f_equal. lia.
  - assert (H2 : 0 <= shr_m (SpecFloat.iter_pos shr_1 p mrs)).
    { rewrite IH by assumption. apply Z.div_pos; [assumption|]. apply Z.pow_pos_nonneg; lia. }
    rewrite IH, IH by assumption.
    rewrite !Z.div_div by (try apply Z.pow_pos_nonneg; lia).
    f_equal. rewrite Pos2Z.inj_xO, <- Z.pow_add_r by lia. f_equal. lia.
  - rewrite shr_1_m by assumption. reflexivity.
Qed.

Lemma shr_record_of_loc_m m l : shr_m (shr_record_of_loc m l) = m.
Proof. destruct l as [|[]]; reflexivity. Qed.

(** What [shr_fexp] returns on a non-negative mantissa: the exponent moves
    up by the shift [n] and the mantissa is divided by [2^n]. *)
Lemma shr_fexp_spec m e l :
  0 <= m ->
  let n := Z.max 0 (fexp prec emax (Zdigits2 m + e) - e) in
  snd (shr_fexp prec emax m e l) = e + n /\
  shr_m (fst (shr_fexp prec emax m e l)) = m / 2 ^ n.
Proof.
  intros Hm. unfold shr_fexp, shr.
  destruct (fexp prec emax (Zdigits2 m + e) - e) as [|p|p] eqn:E; cbn [fst snd].
  - rewrite shr_record_of_loc_m. simpl. rewrite Z.div_1_r. lia.
  - rewrite iter_pos_shr_1_m by (rewrite shr_record_of_loc_m; assumption).
    rewrite shr_record_of_loc_m.
    replace (Z.max 0 (Z.pos p)) with (Z.pos p) by lia. split; reflexivity.
  - rewrite shr_record_of_loc_m. simpl. rewrite Z.div_1_r. lia.
Qed.

Lemma round_nearest_even_ge m l : m <= round_nearest_even m l.
Proof. destruct l as [|[]]; simpl; try lia. destruct (Z.even m); lia. Qed.


Lemma div_pow2_pos m n : 0 <= n -> 2 ^ n <= m -> 0 < m / 2 ^ n.
Proof.
  intros Hn Hm. apply Z.div_str_pos. split; [apply Z.pow_pos_nonneg; lia|assumption].
Qed.

Lemma binary_round_aux_nonneg mx ex lx :
  0 <= mx -> SFnonneg (binary_round_aux prec emax false mx ex lx) = true.
Proof.
  intros Hm. unfold binary_round_aux.
  pose proof (shr_fexp_spec mx ex lx Hm) as [_ H1].
  destruct (shr_fexp prec emax mx ex lx) as [mrs' e']. cbn [fst snd] in H1.
  set (m1 := round_nearest_even (shr_m mrs') (loc_of_shr_record mrs')).
  assert (Hm1 : 0 <= m1).
  { pose proof (round_nearest_even_ge (shr_m mrs') (loc_of_shr_record mrs')).
    assert (0 <= shr_m mrs')
      by (rewrite H1; apply Z.div_pos; [assumption|apply Z.pow_pos_nonneg; lia]).
    unfold m1. lia. }
  pose proof (shr_fexp_spec m1 e' loc_Exact Hm1) as [_ H2].
  destruct (shr_fexp prec emax m1 e' loc_Exact) as [mrs'' e'']. cbn [fst snd] in H2.
  assert (0 <= shr_m mrs'')
    by (rewrite H2; apply Z.div_pos; [assumption|apply Z.pow_pos_nonneg; lia]).
  destruct (shr_m mrs'') as [|p|p]; [reflexivity| |lia].
  destruct (e'' <=? emax - prec); reflexivity.
Qed.

(** Rounding never goes below a representable number that the exact value
    dominates: if [mc * 2^ec], with [mc] of full precision, is at most
    [m * 2^e], then it is at most the rounding of [m * 2^e]. *)
Lemma binary_round_aux_ge mc ec m e :
  Zpos (digits2_pos mc) = prec -> 3 - emax - prec <= ec -> e <= ec ->
  Zpos mc * 2 ^ (ec - e) <= Zpos m ->
  SFleb (S754_finite false mc ec)
        (binary_round_aux prec emax false (Zpos m) e loc_Exact) = true.
Proof.
  intros Hdig Hemin He Hle. unfold binary_round_aux.
  assert (Hd : prec + (ec - e) <= Zdigits2 (Zpos m)).
  { rewrite <- Hdig. apply (Zdigits2_shift_le (Zpos mc)); lia. }
  pose proof (Zdigits2_bounds (Zpos m) eq_refl) as [Hlo _].
  pose proof (shr_fexp_spec (Zpos m) e loc_Exact (Pos2Z.is_nonneg m)) as [He' Hm'].
  set (n1 := Z.max 0 (fexp prec emax (Zdigits2 (Zpos m) + e) - e)) in *.
  destruct (shr_fexp prec emax (Zpos m) e loc_Exact) as [mrs' e'].
  cbn [fst snd] in He', Hm'.
  assert (Hn1 : ec - e <= n1 <= Zdigits2 (Zpos m) - 1)
    by (unfold n1, fexp, SpecFloat.emin, prec, emax in *; lia).
  assert (Hm'pos : 0 < shr_m mrs').
  { rewrite Hm'. apply div_pow2_pos; [lia|].
    eapply Z.le_trans; [|exact Hlo]. apply Z.pow_le_mono_r; lia. }
  set (m1 := round_nearest_even (shr_m mrs') (loc_of_shr_record mrs')).
  assert (Hm1 : shr_m mrs' <= m1) by apply round_nearest_even_ge.
  assert (Hm1pos : 0 < m1) by lia.
  pose proof (Zdigits2_bounds m1 Hm1pos) as [Hlo1 _].
  pose proof (Zdigits2_pos m1 Hm1pos) as Hd1.
  pose proof (shr_fexp_spec m1 e' loc_Exact (Z.lt_le_incl _ _ Hm1pos)) as [He'' Hm''].
  set (n2 := Z.max 0 (fexp prec emax (Zdigits2 m1 + e') - e')) in *.
  destruct (shr_fexp prec emax m1 e' loc_Exact) as [mrs'' e''].
  cbn [fst snd] in He'', Hm''.
  assert (Hn2 : 0 <= n2 <= Zdigits2 m1 - 1)
    by (unfold n2, fexp, SpecFloat.emin, prec, emax in *; lia).
  assert (Hm''pos : 0 < shr_m mrs'').
  { rewrite Hm''. apply div_pow2_pos; [lia|].
    eapply Z.le_trans; [|exact Hlo1]. apply Z.pow_le_mono_r; lia. }
  destruct (shr_m mrs'') as [|m''|m''] eqn:Em; [lia| |lia].
  destruct (e'' <=? emax - prec); [|reflexivity].
  unfold SFleb, SFcompare.
  destruct (Z.compare_spec ec e'') as [Heq|Hlt|Hgt]; [|reflexivity|lia].
  assert (Hn2z : n2 = 0) by lia. assert (Hn1z : n1 = ec - e) by lia.
  rewrite Hn2z, Z.pow_0_r, Z.div_1_r in Hm''.
  assert (Hdiv : Zpos mc <= shr_m mrs').
  { rewrite Hm', Hn1z. apply Z.div_le_lower_bound; [apply Z.pow_pos_nonneg; lia|lia]. }
  change (Pos.compare_cont Eq mc m'') with (Pos.compare mc m'').
  destruct (Pos.compare_spec mc m''); [reflexivity..|lia].
Qed.

Lemma shl_align_value m e ez :
  ez <= e -> Zpos (fst (shl_align m e ez)) = Zpos m * 2 ^ (e - ez).
Proof.
  intros Hle. unfold shl_align.
  destruct (ez - e) as [|d|d] eqn:E; cbn [fst]; try lia.
  - replace (e - ez) with 0 by lia. lia.
  - replace (e - ez) with (Zpos d) by lia. clear E Hle.
    induction d as [|d IH] using Pos.peano_ind.
    + cbn. lia.
    + change (PosDef.Pos.iter xO m (Pos.succ d)) with (Pos.iter xO m (Pos.succ d)).
      rewrite Pos.iter_succ, Pos2Z.inj_succ, Z.pow_succ_r by lia.
      rewrite Pos2Z.inj_xO. change (Pos.iter xO m d) with (PosDef.Pos.iter xO m d).
      rewrite IH. lia.
Qed.


Lemma binary_round_nonneg m e :
  SFnonneg (binary_round prec emax false m e) = true.
Proof.
  unfold binary_round. destruct (shl_align _ _ _) as [mz ez].
  apply binary_round_aux_nonneg. lia.
Qed.

Lemma SFadd_nonneg x y :
  SFnonneg x = true -> SFnonneg y = true ->
  SFnonneg (SFadd prec emax x y) = true.
Proof.
  destruct x as [sx|[]| |[] mx ex], y as [sy|[]| |[] my ey];
    try discriminate; try reflexivity; intros _ _.
  - destruct sx, sy; reflexivity.
  - cbn. apply binary_round_nonneg.
Qed.

Lemma SFmul_finite_nonneg mx ex y :
  SFnonneg y = true ->
  SFnonneg (SFmul prec emax (S754_finite false mx ex) y) = true.
Proof.
  destruct y as [sy|[]| |[] my ey]; try discriminate; try reflexivity; intros _.
  cbn. apply binary_round_aux_nonneg. lia.
Qed.

Lemma SFdiv_finite_nonneg x my ey :
  SFnonneg x = true ->
  SFnonneg (SFdiv prec emax x (S754_finite false my ey)) = true.
Proof.
  destruct x as [sx|[]| |[] mx ex]; try discriminate; try reflexivity; intros _.
  unfold SFdiv, SFdiv_core_binary. cbn [xorb].
  set (m' := match _ - _ - _ with Zpos _ => _ | Z0 => _ | Zneg _ => _ end).
  assert (Hm' : 0 <= m').
  { unfold m'. destruct (_ - _ - _); try lia. apply Z.shiftl_nonneg. lia. }
  pose proof (Z.div_pos m' (Zpos my) Hm' eq_refl) as Hq.
  unfold Z.div in Hq. destruct (Z.div_eucl m' (Zpos my)) as [q r].
  now apply binary_round_aux_nonneg.
Qed.

(** Adding a non-negative number to a normal positive number [c] gives at
    least [c]. *)
Lemma SFadd_ge t mc ec :
  Zpos (digits2_pos mc) = prec -> 3 - emax - prec <= ec ->
  SFnonneg t = true ->
  SFleb (S754_finite false mc ec)
        (SFadd prec emax t (S754_finite false mc ec)) = true.
Proof.
  intros Hdig Hemin Ht.
  assert (Hrefl : SFleb (S754_finite false mc ec) (S754_finite false mc ec) = true).
  { unfold SFleb, SFcompare. rewrite Z.compare_refl.
    change (Pos.compare_cont Eq mc mc) with (Pos.compare mc mc).
    now rewrite Pos.compare_refl. }
  destruct t as [st|[]| |[] mt et]; try discriminate; try reflexivity.
  - exact Hrefl.
  - unfold SFadd. cbn [cond_Zopp]. set (ez := Z.min et ec).
    pose proof (shl_align_value mt et ez ltac:(lia)) as Ha.
    pose proof (shl_align_value mc ec ez ltac:(lia)) as Hb.
    destruct (shl_align mt et ez) as [a ea], (shl_align mc ec ez) as [b eb].
    cbn [fst] in *. change (Z.pos a + Z.pos b) with (Z.pos (a + b)).
    unfold binary_normalize, binary_round.
    assert (Hle : Zpos mc * 2 ^ (ec - ez) <= Zpos (a + b)) by lia.
    assert (Hd : prec + (ec - ez) <= Zpos (digits2_pos (a + b))).
    { rewrite <- Hdig. apply (Zdigits2_shift_le (Zpos mc) _ (Zpos (a + b))); lia. }
    unfold shl_align.
    destruct (fexp prec emax (Zpos (digits2_pos (a + b)) + ez) - ez) as [|d|d] eqn:E;
      [| |unfold fexp, SpecFloat.emin, prec, emax in *; lia].
    all: apply binary_round_aux_ge; try assumption; lia.
Qed.

Local Close Scope Z_scope.

(** The same facts on primitive floats. *)
Lemma nonneg_SFnonneg x : nonneg x <-> SFnonneg (Prim2SF x) = true.
Proof.
  unfold nonneg. rewrite FloatAxioms.leb_spec.
  change (Prim2SF 0) with (S754_zero false).
  destruct (Prim2SF x) as [s|[]| |[] m e]; cbn; split; congruence.
Qed.

Lemma add_nonneg x y : nonneg x -> nonneg y -> nonneg (x + y).
Proof.
  rewrite !nonneg_SFnonneg, FloatAxioms.add_spec. apply SFadd_nonneg.
Qed.

Lemma div_100_nonneg x : nonneg x -> nonneg (x / 100).
Proof.
  rewrite !nonneg_SFnonneg, FloatAxioms.div_spec.
  apply (SFdiv_finite_nonneg (Prim2SF x) 7036874417766400 (-46)).
Qed.

Lemma mul_2_nonneg x : nonneg x -> nonneg (2 * x).
Proof.
  rewrite !nonneg_SFnonneg, FloatAxioms.mul_spec.
  apply (SFmul_finite_nonneg 4503599627370496 (-51)).
Qed.

Lemma add_buffer_ge x : nonneg x -> (0.002 <=? x + 0.002)%float = true.
Proof.
  rewrite nonneg_SFnonneg, FloatAxioms.leb_spec, FloatAxioms.add_spec.
  apply (SFadd_ge (Prim2SF x) 4611686018427388 (-61)); [reflexivity|].
  unfold prec, emax. lia.
Qed.

End Rounding.

(** ** Differences and sums of binary64 numbers *)

Module FloatSub.
Import FloatOrder Rounding.
Local Open Scope Z_scope.

(** A rounded negative mantissa is never above zero. *)
Lemma binary_round_aux_neg_not_pos mx ex lx :
  SFltb (S754_zero false) (binary_round_aux prec emax true mx ex lx) = false.
Proof.
  unfold binary_round_aux.
  destruct (shr_fexp prec emax mx ex lx) as [mrs' e'].
  destruct (shr_fexp prec emax _ e' loc_Exact) as [mrs'' e''].
  destruct (shr_m mrs'') as [|p|p]; try reflexivity.
  destruct (e'' <=? emax - prec); reflexivity.
Qed.

Lemma binary_normalize_nonpos_not_pos m e :
  m <= 0 -> SFltb (S754_zero false) (binary_normalize prec emax m e false) = false.
Proof.
  destruct m as [|p|p]; intros Hm; [reflexivity|lia|].
  unfold binary_normalize, binary_round. destruct (shl_align _ _ _) as [mz ez].
  apply binary_round_aux_neg_not_pos.
Qed.

(** On valid numbers the order of the exponents decides, then that of the
    mantissas: aligned to the smaller exponent the mantissas compare the
    same way. *)
Lemma canonical_digits m e :
  bounded prec emax m e = true ->
  Zpos (digits2_pos m) <= prec /\ 3 - emax - prec <= e /\
  (3 - emax - prec < e -> Zpos (digits2_pos m) = prec).
Proof.
  unfold bounded, canonical_mantissa, fexp, SpecFloat.emin.
  intros H. apply andb_prop in H as [H _]. apply Z.eqb_eq in H.
  unfold prec, emax in *. lia.
Qed.

Lemma aligned_lt m1 e1 m2 e2 :
  bounded prec emax m1 e1 = true ->
  bounded prec emax m2 e2 = true ->
  e1 < e2 ->
  Zpos m1 < Zpos m2 * 2 ^ (e2 - e1).
Proof.
  intros V1 V2 Hlt.
  destruct (canonical_digits _ _ V1) as (Hd1 & He1 & _).
  destruct (canonical_digits _ _ V2) as (_ & _ & Hd2).
  specialize (Hd2 ltac:(lia)).
  pose proof (digits2_pos_bounds m1) as [_ Hm1].
  pose proof (digits2_pos_bounds m2) as [Hm2 _].
  rewrite Hd2 in Hm2.
  assert (H1 : 2 ^ Zpos (digits2_pos m1) <= 2 ^ prec)
    by (apply Z.pow_le_mono_r; lia).
  assert (H2 : 2 ^ 1 <= 2 ^ (e2 - e1)) by (apply Z.pow_le_mono_r; lia).
  change (2 ^ prec) with (2 * 2 ^ (prec - 1)) in H1.
  change (2 ^ 1) with 2 in H2. nia.
Qed.

(** A difference above zero means the minuend is the larger number. *)
Lemma SFsub_pos_gt x y :
  valid_binary x = true -> valid_binary y = true ->
  SFltb (S754_zero false) (SFsub prec emax x y) = true -> SFltb y x = true.
Proof.
  intros Vx Vy.
  destruct x as [sx|sx| |sx mx ex], y as [sy|sy| |sy my ey];
    try (cbn; congruence);
    try (destruct sx; cbn; congruence); try (destruct sy; cbn; congruence);
    try (destruct sx, sy; cbn; congruence).
  cbn [valid_binary] in Vx, Vy. unfold SFsub. set (ez := Z.min ex ey).
  pose proof (shl_align_value mx ex ez ltac:(lia)) as Ha.
  pose proof (shl_align_value my ey ez ltac:(lia)) as Hb.
  destruct (shl_align mx ex ez) as [a ea], (shl_align my ey ez) as [b eb].
  cbn [fst] in *. intros Hpos.
  destruct (SFltb (S754_finite sy my ey) (S754_finite sx mx ex)) eqn:E;
    [reflexivity|exfalso].
  rewrite binary_normalize_nonpos_not_pos in Hpos; [discriminate|].
  unfold SFltb, SFcompare in E.
  destruct sx, sy; cbn [cond_Zopp]; try discriminate; try lia.
  - (* both negative *)
    destruct (Z.compare_spec ey ex) as [Heq|Hlt|Hgt]; try discriminate.
    + subst ey. change (Pos.compare_cont Eq my mx) with (Pos.compare my mx) in E.
      replace (ex - ez) with 0 in * by lia. 
      destruct (Pos.compare_spec my mx); cbn in E; try discriminate; lia.
    + pose proof (aligned_lt my ey mx ex Vy Vx Hlt).
      replace (ey - ez) with 0 in * by lia. replace (ex - ez) with (ex - ey) in * by lia.
      lia.
  - (* both positive *)
    destruct (Z.compare_spec ey ex) as [Heq|Hlt|Hgt]; try discriminate.
    + subst ey. change (Pos.compare_cont Eq my mx) with (Pos.compare my mx) in E.
      replace (ex - ez) with 0 in * by lia.
      destruct (Pos.compare_spec my mx); try discriminate; lia.
    + pose proof (aligned_lt mx ex my ey Vx Vy Hgt).
      replace (ex - ez) with 0 in * by lia. replace (ey - ez) with (ey - ex) in * by lia.
      lia.
Qed.

Local Close Scope Z_scope.

Lemma sub_pos_gt x y : (0 <? x - y)%float = true -> (y <? x)%float = true.
Proof.
  rewrite !FloatAxioms.ltb_spec, FloatAxioms.sub_spec.
  change (Prim2SF 0) with (S754_zero false).
  apply SFsub_pos_gt; apply Prim2SF_valid.
Qed.

(** Addition commutes. *)
Lemma SFadd_comm x y : SFadd prec emax x y = SFadd prec emax y x.
Proof.
  destruct x as [sx|sx| |sx mx ex], y as [sy|sy| |sy my ey]; try reflexivity;
    try (destruct sx, sy; reflexivity).
  unfold SFadd. now rewrite Z.min_comm, Z.add_comm.
Qed.

Lemma add_comm x y : (x + y = y + x)%float.
Proof.
  apply Prim2SF_inj. rewrite !FloatAxioms.add_spec. apply SFadd_comm.
Qed.

End FloatSub.

(** ** The stable descending sort *)

Section SortFacts.
Context {A : Type}.
Variable key : A -> float.

Lemma insert_desc_perm x l : insert_desc key x l ≡ₚ x :: l.
Proof.
  induction l as [|y l IH]; simpl; [reflexivity|].
  destruct (key x <? key y)%float; [|reflexivity].
  rewrite IH. apply Permutation_swap.
Qed.

Lemma sorted_reverse_perm l : sorted_reverse key l ≡ₚ l.
Proof.
  induction l as [|x l IH]; simpl; [reflexivity|].
  rewrite insert_desc_perm. now rewrite IH.
Qed.

Lemma insert_desc_sorted x l :
  is_NaN (key x) = false ->
  Forall (fun a => is_NaN (key a) = false) l ->
  StronglySorted (desc key) l -> StronglySorted (desc key) (insert_desc key x l).
Proof.
  intros Hx Hl Hs. induction Hs as [|y l Hs IH Hy]; simpl.
  - repeat constructor.
  - inversion Hl as [|? ? Hny Hl']; subst.
    destruct (key x <? key y)%float eqn:E.
    + constructor; [auto|].
      rewrite insert_desc_perm. constructor; [|assumption].
      apply FloatOrder.ltb_leb, E.
    + assert (Hxy : desc key x y) by (apply FloatOrder.not_ltb_leb; assumption).
      constructor; [constructor; assumption|].
      constructor; [assumption|].
      eapply Forall_impl; [exact Hy|]. intros z Hz. unfold desc in *.
      eapply FloatOrder.leb_trans; eassumption.
Qed.

Lemma sorted_reverse_sorted l :
  Forall (fun a => is_NaN (key a) = false) l ->
  StronglySorted (desc key) (sorted_reverse key l).
Proof.
  induction 1 as [|x l Hx Hl IH]; simpl; [constructor|].
  apply insert_desc_sorted; [assumption| |assumption].
  now rewrite sorted_reverse_perm.
Qed.

(** Stability: the elements of one key class keep their relative order. *)
Lemma insert_desc_stable k x l :
  filter (fun a => (key a =? k)%float = true) (insert_desc key x l)
  = filter (fun a => (key a =? k)%float = true) (x :: l).
Proof.
  induction l as [|y l IH]; simpl; [reflexivity|].
  destruct (key x <? key y)%float eqn:E; [|reflexivity].
  rewrite (filter_cons _ y (insert_desc key x l)), IH.
  rewrite !filter_cons.
  destruct (decide ((key x =? k)%float = true)) as [Hx|Hx];
    destruct (decide ((key y =? k)%float = true)) as [Hy|Hy]; try reflexivity.
  rewrite (FloatOrder.ltb_eqb_false _ _ _ E Hx) in Hy. discriminate.
Qed.

Lemma sorted_reverse_stable k l :
  filter (fun a => (key a =? k)%float = true) (sorted_reverse key l)
  = filter (fun a => (key a =? k)%float = true) l.
Proof.
  induction l as [|x l IH]; simpl; [reflexivity|].
  rewrite insert_desc_stable, !filter_cons, IH. reflexivity.
Qed.

End SortFacts.

(** ** The grouping loop *)

Lemma first_occurrences_snoc l s :
  first_occurrences (l ++ [s])
  = if decide (s ∈ first_occurrences l) then first_occurrences l
    else first_occurrences l ++ [s].
Proof. unfold first_occurrences. now rewrite foldl_app. Qed.

Lemma elem_of_first_occurrences l s : s ∈ first_occurrences l <-> s ∈ l.
Proof.
  induction l as [|x l IH] using rev_ind.
  - reflexivity.
  - rewrite first_occurrences_snoc.
    destruct (decide (x ∈ first_occurrences l)) as [Hx|Hx];
      rewrite !elem_of_app, ?list_elem_of_singleton, IH; [|tauto].
    split; [tauto|]. intros [?| ->]; [assumption|]. now apply IH.
Qed.

Lemma NoDup_first_occurrences l : NoDup (first_occurrences l).
Proof.
  induction l as [|x l IH] using rev_ind.
  - constructor.
  - rewrite first_occurrences_snoc.
    destruct (decide (x ∈ first_occurrences l)) as [Hx|Hx]; [assumption|].
    apply NoDup_app. split; [assumption|]. split; [|apply NoDup_singleton].
    intros y Hy Hy'. apply list_elem_of_singleton in Hy'. now subst.
Qed.

Lemma records_of_snoc s l d :
  records_of s (l ++ [d])
  = records_of s l ++ (if decide (symbol d = s) then [d] else []).
Proof.
  unfold records_of. now rewrite filter_app.
Qed.

Lemma records_of_absent s l : ~ In s (map symbol l) -> records_of s l = [].
Proof.
  unfold records_of. induction l as [|d l IH]; simpl; intros H; [reflexivity|].
  rewrite filter_cons, decide_False by tauto. apply IH. tauto.
Qed.

(** Appending a record to groups keyed by distinct symbols [ks]. *)
Lemma group_append_map ks l d :
  NoDup ks ->
  group_append (map (fun s => (s, records_of s l)) ks) d
  = map (fun s => (s, records_of s (l ++ [d]))) ks
    ++ (if decide (symbol d ∈ ks) then [] else [(symbol d, [d])]).
Proof.
  induction 1 as [|s ks Hs Hks IH]; simpl; [reflexivity|].
  destruct (String.eqb_spec s (symbol d)) as [->|Hne].
  - rewrite decide_True by apply list_elem_of_here. rewrite app_nil_r.
    rewrite records_of_snoc, decide_True by reflexivity. f_equal.
    apply map_ext_in. intros s' Hs'. f_equal.
    rewrite records_of_snoc, decide_False, app_nil_r; [reflexivity|].
    intros Heq. apply Hs. rewrite Heq. now apply list_elem_of_In.
  - rewrite IH. rewrite (records_of_snoc s).
    rewrite (decide_False (P := symbol d = s)) by congruence.
    rewrite app_nil_r. simpl. do 2 f_equal.
    destruct (decide (symbol d ∈ ks)) as [Hin|Hin].
    + rewrite decide_True; [reflexivity|]. now apply list_elem_of_further.
    + rewrite decide_False; [reflexivity|].
      rewrite elem_of_cons. intros [?|?]; congruence.
Qed.

Lemma groups_of_snoc l d : group_append (groups_of l) d = groups_of (l ++ [d]).
Proof.
  unfold groups_of. rewrite group_append_map by apply NoDup_first_occurrences.
  rewrite map_app. simpl. rewrite first_occurrences_snoc.
  destruct (decide (symbol d ∈ first_occurrences (map symbol l))) as [Hin|Hin].
  - now rewrite app_nil_r.
  - rewrite map_app. simpl. do 2 f_equal.
    rewrite records_of_snoc, decide_True by reflexivity.
    replace (records_of (symbol d) l) with (@nil FundingRateData); [reflexivity|].
    symmetry. apply records_of_absent. intros Hd. apply Hin.
    now apply elem_of_first_occurrences, list_elem_of_In.
Qed.

(** The grouping loop builds one entry per symbol, in the order the symbols
    first occur, holding that symbol's records in input order. *)
Lemma symbol_groups_spec funding_data :
  foldl group_append [] funding_data = groups_of funding_data.
Proof.
  induction funding_data as [|d l IH] using rev_ind; [reflexivity|].
  rewrite foldl_app. simpl. rewrite IH. apply groups_of_snoc.
Qed.

(** ** The index loops *)

Lemma foldl_app_flat_map {A B : Type} (f : list B -> A -> list B)
    (g : A -> list B) (l : list A) (acc : list B) :
  (forall acc x, f acc x = acc ++ g x) ->
  foldl f acc l = acc ++ flat_map g l.
Proof.
  intros Hf. revert acc. induction l as [|x l IH]; intros acc; simpl.
  - now rewrite app_nil_r.
  - now rewrite IH, Hf, <- app_assoc.
Qed.

Lemma filter_flat_map {A B : Type} (P : B -> Prop) `{!forall x, Decision (P x)}
    (f : A -> list B) (l : list A) :
  filter P (flat_map f l) = flat_map (fun x => filter P (f x)) l.
Proof.
  induction l as [|x l IH]; simpl; [reflexivity|].
  now rewrite filter_app, IH.
Qed.

Lemma flat_map_map {A B C : Type} (f : B -> list C) (g : A -> B) (l : list A) :
  flat_map f (map g l) = flat_map (fun x => f (g x)) l.
Proof. induction l as [|x l IH]; simpl; [reflexivity|]. now rewrite IH. Qed.

Lemma pairs_short {A : Type} (l : list A) : length l < 2 -> pairs l = [].
Proof. destruct l as [|x [|y l]]; simpl; intros; [reflexivity..|lia]. Qed.

(** Positions of a pair: [pairs] lists exactly the pairs of elements at
    positions [i < j]. *)
Lemma elem_of_pairs {A : Type} (l : list A) (a b : A) :
  In (a, b) (pairs l) <->
  exists i j, i < j /\ l !! i = Some a /\ l !! j = Some b.
Proof.
  induction l as [|x l IH]; simpl.
  - split; [tauto|]. intros (i & j & _ & H & _). discriminate.
  - rewrite in_app_iff, in_map_iff, IH. split.
    + intros [(y & [= <- <-] & Hy)|(i & j & Hij & Hi & Hj)].
      * apply list_elem_of_In, list_elem_of_lookup in Hy as [j Hj].
        exists 0, (S j). repeat split; [lia|assumption].
      * exists (S i), (S j). repeat split; [lia|assumption..].
    + intros (i & j & Hij & Hi & Hj). destruct j as [|j]; [lia|].
      simpl in Hj. destruct i as [|i]; simpl in Hi.
      * left. exists b. injection Hi as ->. split; [reflexivity|].
        apply list_elem_of_In, list_elem_of_lookup. eauto.
      * right. exists i, j. repeat split; [lia|assumption..].
Qed.

Section SearchFacts.
Context {Api : Type}.
Variable self : FundingRateCollector Api.

(** The body of the loops appends the profitable constructed opportunity of
    the pair, if any. *)
Lemma visit_pair_spec s r1 r2 opps :
  visit_pair self s r1 r2 opps
  = opps ++ filter profitable (constructed self s (r1, r2)).
Proof.
  unfold visit_pair, constructed. cbn [fst snd]. destruct (legs r1 r2) as [l r].
  destruct (0.0001 <? rate l - rate r)%float; [|now rewrite app_nil_r].
  set (o := _calculate_arbitrage_profit self l r s).
  rewrite filter_cons, filter_nil.
  destruct (decide (profitable o)) as [Ho|Ho]; unfold profitable in Ho.
  - now rewrite Ho.
  - apply not_true_is_false in Ho. rewrite Ho. now rewrite app_nil_r.
Qed.

(** The inner loop, started at index [a], visits [rates[a:]] in order. *)
Lemma inner_loop_spec s rates r1 a opps :
  foldl (fun opps j =>
      match rates !! j with
      | Some rate2 => visit_pair self s r1 rate2 opps
      | None => opps
      end) opps (seq a (length rates - a))
  = opps ++ flat_map (fun r2 => filter profitable (constructed self s (r1, r2)))
                     (drop a rates).
Proof.
  remember (length rates - a) as k eqn:Hk. revert a opps Hk.
  induction k as [|k IH]; intros a opps Hk; simpl.
  - rewrite drop_ge by lia. simpl. now rewrite app_nil_r.
  - destruct (lookup_lt_is_Some_2 rates a) as [r2 Hr2]; [lia|].
    rewrite Hr2, (drop_S _ _ _ Hr2). simpl.
    rewrite IH by lia. now rewrite visit_pair_spec, <- app_assoc.
Qed.

Lemma outer_loop_spec s rates a opps :
  foldl (fun opps i =>
    foldl (fun opps j =>
      match rates !! i, rates !! j with
      | Some rate1, Some rate2 => visit_pair self s rate1 rate2 opps
      | _, _ => opps
      end) opps (seq (i + 1) (length rates - (i + 1))))
    opps (seq a (length rates - a))
  = opps ++ flat_map (fun p => filter profitable (constructed self s p))
                     (pairs (drop a rates)).
Proof.
  remember (length rates - a) as k eqn:Hk. revert a opps Hk.
  induction k as [|k IH]; intros a opps Hk; simpl.
  - rewrite drop_ge by lia. simpl. now rewrite app_nil_r.
  - destruct (lookup_lt_is_Some_2 rates a) as [r1 Hr1]; [lia|].
    rewrite Hr1, (drop_S _ _ _ Hr1). simpl.
    rewrite IH by lia. rewrite inner_loop_spec.
    rewrite flat_map_app, flat_map_map.
    replace (a + 1) with (S a) by lia. now rewrite <- app_assoc.
Qed.

Lemma scan_group_spec s rates opps :
  scan_group self s rates opps
  = opps ++ filter profitable (flat_map (constructed self s) (pairs rates)).
Proof.
  unfold scan_group. rewrite filter_flat_map.
  pose proof (outer_loop_spec s rates 0 opps) as H.
  rewrite Nat.sub_0_r in H. exact H.
Qed.

(** The loops and the sort, in closed form. *)
Lemma find_arbitrage_opportunities_spec funding_data :
  find_arbitrage_opportunities self funding_data
  = sorted_reverse net_profit_8h (enumerated self funding_data).
Proof.
  unfold find_arbitrage_opportunities, enumerated, constructed_opportunities.
  rewrite symbol_groups_spec. f_equal.
  rewrite filter_flat_map.
  rewrite (foldl_app_flat_map _
    (fun g => filter profitable (flat_map (constructed self (fst g)) (pairs (snd g))))).
  - reflexivity.
  - intros acc [s rates]. simpl.
    destruct (Nat.ltb_spec (length rates) 2) as [Hlt|Hge].
    + rewrite pairs_short by assumption. simpl. now rewrite app_nil_r.
    + apply scan_group_spec.
Qed.

End SearchFacts.

(** ** Where a returned opportunity comes from *)

Lemma In_pairs_filter {A : Type} (P : A -> Prop) `{!forall x, Decision (P x)}
    (l : list A) (a b : A) :
  In (a, b) (pairs (filter P l)) <-> In (a, b) (pairs l) /\ P a /\ P b.
Proof.
  induction l as [|x l IH]; simpl; [tauto|].
  rewrite filter_cons. destruct (decide (P x)) as [Hx|Hx]; simpl.
  - rewrite !in_app_iff, !in_map_iff, IH. split.
    + intros [(y & [= <- <-] & Hy)|Hr]; [|tauto].
      apply list_elem_of_In, list_elem_of_filter in Hy as [Hy Hin].
      split; [|tauto]. left. exists y. split; [reflexivity|].
      now apply list_elem_of_In.
    + intros [[(y & [= <- <-] & Hy)|Hr] [Ha Hb]]; [|tauto].
      left. exists y. split; [reflexivity|].
      apply list_elem_of_In, list_elem_of_filter. split; [assumption|].
      now apply list_elem_of_In.
  - rewrite in_app_iff, in_map_iff, IH. split; [tauto|].
    intros [[(y & [= <- <-] & Hy)|Hr] [Ha Hb]]; tauto.
Qed.

Section Provenance.
Context {Api : Type}.
Variable self : FundingRateCollector Api.

Lemma In_constructed s r1 r2 o :
  In o (constructed self s (r1, r2)) <->
  (0.0001 <? rate (fst (legs r1 r2)) - rate (snd (legs r1 r2)))%float = true /\
  o = _calculate_arbitrage_profit self (fst (legs r1 r2)) (snd (legs r1 r2)) s.
Proof.
  unfold constructed. cbn [fst snd]. destruct (legs r1 r2) as [l r]. cbn [fst snd].
  destruct (0.0001 <? rate l - rate r)%float; simpl.
  - split; [intros [<-|[]]; auto|]. intros [_ ->]. now left.
  - split; [tauto|]. intros [? _]. discriminate.
Qed.

(** Every constructed opportunity belongs to a pair of records of one
    symbol's group. *)
Lemma In_constructed_opportunities_group funding_data o :
  In o (constructed_opportunities self funding_data) <->
  exists s r1 r2,
    In (r1, r2) (pairs (records_of s funding_data)) /\
    In o (constructed self s (r1, r2)).
Proof.
  unfold constructed_opportunities, groups_of. rewrite flat_map_map. cbn [fst snd].
  rewrite in_flat_map. split.
  - intros (s & Hs & Ho). apply in_flat_map in Ho as ([r1 r2] & Hp & Ho). eauto.
  - intros (s & r1 & r2 & Hp & Ho). exists s. split.
    + apply In_pairs_filter in Hp as (Hp & <- & _).
      apply elem_of_pairs in Hp as (i & j & _ & Hi & _).
      apply list_elem_of_In, elem_of_first_occurrences, list_elem_of_In, in_map.
      apply list_elem_of_In, list_elem_of_lookup. eauto.
    + apply in_flat_map. exists (r1, r2). auto.
Qed.

(** The two records stand at two positions [i < j] of the input. *)
Lemma In_pairs_records_of s funding_data r1 r2 :
  In (r1, r2) (pairs (records_of s funding_data)) <->
  symbol r1 = s /\ symbol r2 = s /\
  exists i j, i < j /\ funding_data !! i = Some r1 /\ funding_data !! j = Some r2.
Proof.
  unfold records_of. rewrite In_pairs_filter, elem_of_pairs. tauto.
Qed.

Lemma In_find_enumerated funding_data o :
  In o (find_arbitrage_opportunities self funding_data) <->
  In o (enumerated self funding_data).
Proof.
  rewrite find_arbitrage_opportunities_spec, <- !list_elem_of_In.
  now rewrite sorted_reverse_perm.
Qed.

Lemma In_find funding_data o :
  In o (find_arbitrage_opportunities self funding_data) <->
  profitable o /\ In o (constructed_opportunities self funding_data).
Proof.
  rewrite In_find_enumerated. unfold enumerated.
  now rewrite <- !list_elem_of_In, list_elem_of_filter.
Qed.

(** Which leg is which: the long leg never has the smaller rate once the
    difference passed the spread test. *)
Lemma legs_ordered r1 r2 :
  (0.0001 <? rate (fst (legs r1 r2)) - rate (snd (legs r1 r2)))%float = true ->
  (rate (snd (legs r1 r2)) <=? rate (fst (legs r1 r2)))%float = true.
Proof.
  unfold legs. destruct (rate r2 <? rate r1)%float eqn:E; cbn [fst snd]; intros H.
  - now apply FloatOrder.ltb_leb.
  - apply FloatOrder.ltb_not_nan in H as [_ H].
    apply FloatOrder.sub_not_nan in H as [H2 H1].
    now apply FloatOrder.not_ltb_leb.
Qed.

(** The record with the larger rate is the long leg. *)
Lemma legs_larger_rate r1 r2 :
  ((rate r2 <? rate r1)%float = true -> legs r1 r2 = (r1, r2)) /\
  ((rate r1 <? rate r2)%float = true -> legs r1 r2 = (r2, r1)).
Proof.
  unfold legs. split; intros Hlt.
  - now rewrite Hlt.
  - destruct (rate r2 <? rate r1)%float eqn:E; [|reflexivity].
    apply FloatOrder.ltb_leb in E.
    rewrite (FloatOrder.ltb_leb_false _ _ Hlt) in E. discriminate.
Qed.

End Provenance.

Lemma above_threshold_nonneg x :
  (0.0001 <? x)%float = true -> (0 <=? x)%float = true.
Proof.
  intros H. eapply FloatOrder.leb_trans; [|apply FloatOrder.ltb_leb, H].
  reflexivity.
Qed.

(** ** Exceptions stop at the handlers *)

Section Handlers.
Context `{Runtime}.

Lemma try_except_pass {S : Type} (body : M S unit) (s : S) :
  exists s', try_except body (fun _ => mret tt) s = (Ok tt, s').
Proof.
  unfold try_except. destruct (body s) as [[[]|e] s']; eauto.
Qed.

Lemma for_each_ok {S X : Type} (body : X -> M S unit) (l : list X) (s : S) :
  (forall x s, exists s', body x s = (Ok tt, s')) ->
  exists s', for_each l body s = (Ok tt, s').
Proof.
  intros Hbody. revert s. induction l as [|x l IH]; intros s; simpl.
  - eauto.
  - unfold mbind, M_bind. destruct (Hbody x s) as [s1 ->]. apply IH.
Qed.

Lemma returning_list_ok (body : M Frame unit) :
  (forall fr, exists fr', body fr = (Ok tt, fr')) ->
  forall w, exists rates w', returning_list body w = (Ok rates, w').
Proof.
  intros Hbody w. unfold returning_list.
  destruct (Hbody {| world := w; items := [] |}) as [fr' ->]. eauto.
Qed.

(** Statements built from the adapter vocabulary only append. *)
Lemma appends_only_ret {A : Type} (a : A) : appends_only (mret a).
Proof. intros w acc. cbn. now rewrite app_nil_r. Qed.

Lemma appends_only_lift {A : Type} (r : result A) : appends_only (lift_result r).
Proof. intros w acc. cbn. now rewrite app_nil_r. Qed.

Lemma appends_only_on_world {A : Type} (m : M World A) : appends_only (on_world m).
Proof.
  intros w acc. unfold on_world. cbn. destruct (m w) as [r w']. cbn.
  now rewrite app_nil_r.
Qed.

Lemma appends_only_append x : appends_only (append x).
Proof. intros w acc. reflexivity. Qed.

Lemma appends_only_bind {A B : Type} (m : M Frame A) (k : A -> M Frame B) :
  appends_only m -> (forall a, appends_only (k a)) -> appends_only (m ≫= k).
Proof.
  intros Hm Hk w acc. unfold mbind, M_bind. rewrite (Hm w acc).
  destruct (m {| world := w; items := [] |}) as [[a|e] [w1 l1]]; cbn.
  - rewrite (Hk a w1 (acc ++ l1)), (Hk a w1 l1). cbn. now rewrite app_assoc.
  - reflexivity.
Qed.

Lemma appends_only_try {A : Type} (m : M Frame A) (h : exn -> M Frame A) :
  appends_only m -> (forall e, appends_only (h e)) -> appends_only (try_except m h).
Proof.
  intros Hm Hh w acc. unfold try_except. rewrite (Hm w acc).
  destruct (m {| world := w; items := [] |}) as [[a|e] [w1 l1]]; cbn.
  - reflexivity.
  - rewrite (Hh e w1 (acc ++ l1)), (Hh e w1 l1). cbn. now rewrite app_assoc.
Qed.

(** The loop of a per-symbol adapter, from any frame. *)
Lemma per_symbol_loop_spec (visit : string -> M Frame unit) symbols w acc :
  (forall symbol, appends_only (visit symbol)) ->
  for_each symbols (fun symbol => try_except (visit symbol) (fun _ => mret tt))
    {| world := w; items := acc |}
  = (Ok tt, {| world := snd (per_symbol visit symbols w);
               items := acc ++ fst (per_symbol visit symbols w) |}).
Proof.
  intros Hv. revert w acc. induction symbols as [|symbol rest IH]; intros w acc.
  - cbn. now rewrite app_nil_r.
  - cbn [for_each per_symbol]. unfold mbind, M_bind, try_except at 1.
    rewrite (Hv symbol w acc).
    destruct (visit symbol {| world := w; items := [] |}) as [[[]|e] [w1 l1]];
      cbn [fst snd world items]; unfold mret, M_ret; rewrite IH;
      destruct (per_symbol visit rest w1) as [more w']; cbn;
      now rewrite app_assoc.
Qed.

Lemma per_symbol_spec (visit : string -> M Frame unit) symbols w :
  (forall symbol, appends_only (visit symbol)) ->
  returning_list
    (for_each symbols (fun symbol => try_except (visit symbol) (fun _ => mret tt))) w
  = (Ok (fst (per_symbol visit symbols w)), snd (per_symbol visit symbols w)).
Proof.
  intros Hv. unfold returning_list. now rewrite per_symbol_loop_spec.
Qed.

Ltac solve_appends_only :=
  repeat first
    [ apply appends_only_ret | apply appends_only_lift
    | apply appends_only_on_world | apply appends_only_append
    | apply appends_only_bind; [|intros ?]
    | match goal with
      | |- appends_only (if ?b then _ else _) => destruct b
      | |- appends_only (match ?x with _ => _ end) => destruct x
      end ].

Lemma read_next_funding_time_appends_only item :
  appends_only (read_next_funding_time item).
Proof. unfold read_next_funding_time. solve_appends_only. Qed.

Lemma okx_visit_appends_only symbol : appends_only (OKXAPI.visit_symbol symbol).
Proof.
  unfold OKXAPI.visit_symbol.
  destruct (assoc symbol (symbol_mapping OKXAPI.self));
    solve_appends_only; apply read_next_funding_time_appends_only.
Qed.

Lemma kucoin_visit_appends_only symbol : appends_only (KuCoinAPI.visit_symbol symbol).
Proof.
  unfold KuCoinAPI.visit_symbol, KuCoinAPI.code_is_200000.
  destruct (assoc symbol (symbol_mapping KuCoinAPI.self)); solve_appends_only.
Qed.

(** The batch adapters wrap their whole body in one [try]. *)
Lemma guarded_body_never_raises (body : list string -> M Frame unit) :
  never_raises (fun symbols =>
    returning_list (try_except (body symbols) (fun _ => mret tt))).
Proof.
  intros symbols w. apply returning_list_ok. intros fr. apply try_except_pass.
Qed.

(** The per-symbol adapters wrap each round of their loop in a [try]. *)
Lemma guarded_rounds_never_raise (body : string -> M Frame unit) :
  never_raises (fun symbols =>
    returning_list (for_each symbols (fun symbol =>
      try_except (body symbol) (fun _ => mret tt)))).
Proof.
  intros symbols w. apply returning_list_ok. intros fr.
  apply for_each_ok. intros x s. apply try_except_pass.
Qed.

(** The collection loop from any frame it is entered in. *)
Lemma collect_loop_spec (apis : list (string * Adapter)) symbols fr :
  for_each apis (fun '(exchange_name, api) =>
      try_except (rates ← on_world (api symbols); extend rates)
                 (fun _ => mret tt)) fr
  = (Ok tt, {| world := snd (gathered apis symbols (world fr));
               items := items fr ++ fst (gathered apis symbols (world fr)) |}).
Proof.
  revert fr. induction apis as [|[exchange_name api] apis IH]; intros fr; simpl.
  - unfold mret, M_ret. rewrite app_nil_r. now destruct fr.
  - unfold mbind, M_bind, try_except, on_world, extend at 1.
    destruct (api symbols (world fr)) as [[rates|e] w'] eqn:E; cbn.
    + rewrite IH. cbn. destruct (gathered apis symbols w') as [more w''].
      cbn. now rewrite app_assoc.
    + unfold mret, M_ret. rewrite IH. reflexivity.
Qed.

Lemma collect_all_funding_rates_spec (self : FundingRateCollector Adapter)
    symbols w :
  collect_all_funding_rates self symbols w
  = (Ok (fst (gathered (exchanges self) symbols w)),
     snd (gathered (exchanges self) symbols w)).
Proof.
  unfold collect_all_funding_rates, returning_list.
  now rewrite collect_loop_spec.
Qed.

End Handlers.

(** ** Persistence *)

Section Persistence.
Context `{Runtime}.
Variable self : FundingRateBot.

Lemma length_clock_readings n w : length (fst (clock_readings n w)) = n.
Proof.
  revert w. induction n as [|n IH]; intros w; cbn; [reflexivity|].
  destruct (datetime_now w) as [t w1]. specialize (IH w1).
  destruct (clock_readings n w1) as [ts w2]. cbn in *. now rewrite IH.
Qed.

(** The entries are captured at successive readings of the clock. *)
Lemma entries_spec opportunities d :
  entries self opportunities d
  = (Ok (zip_with (opportunity_entry self)
           (fst (clock_readings (length opportunities) (env d))) opportunities),
     with_env d (snd (clock_readings (length opportunities) (env d)))).
Proof.
  revert d. induction opportunities as [|op rest IH]; intros d; simpl.
  - unfold mret, M_ret, with_env. now destruct d.
  - unfold mbind, M_bind, on_env at 1, datetime_now_M.
    destruct (datetime_now (env d)) as [now w1].
    change {| env := w1; displayed := displayed d; files := files d |}
      with (with_env d w1).
    rewrite IH. cbn [with_env env].
    destruct (clock_readings (length rest) w1) as [ts w2]. reflexivity.
Qed.

Lemma save_opportunities_spec opportunities d :
  let now := fst (datetime_now (env d)) in
  let readings := clock_readings (length opportunities) (snd (datetime_now (env d))) in
  save_opportunities self opportunities d
  = (Ok tt,
     {| env := snd readings; displayed := displayed d;
        files := files d ++
          [(opportunities_file self now,
            JList (zip_with (opportunity_entry self) (fst readings) opportunities))] |}).
Proof.
  unfold save_opportunities, mbind, M_bind, on_env at 1, datetime_now_M.
  destruct (datetime_now (env d)) as [now w1]. cbn [fst snd].
  change {| env := w1; displayed := displayed d; files := files d |}
    with (with_env d w1).
  rewrite entries_spec. reflexivity.
Qed.

End Persistence.

(** * The properties of the specification *)

(** C1. For every pair of records handed to [_calculate_arbitrage_profit],
    with [fl], [fs] the fee-table entries (in percent) of the long and the
    short exchange and [sl] the slippage-table entry of the symbol, the
    opportunity has [net_profit_8h = rate_difference - (fl/100 + fs/100 +
    2 * (sl/100) + 0.002)], [estimated_fees] is that fee sum, and the gross
    profit is [rate_difference], the difference of the two rates. *)
Theorem net_profit_formula {Api : Type} (self : FundingRateCollector Api)
    (long short : FundingRateData) (sym : string) (fl fs sl : float) :
  fee_structure self !! exchange long = Some fl ->
  fee_structure self !! exchange short = Some fs ->
  slippage_estimates self !! sym = Some sl ->
  let o := _calculate_arbitrage_profit self long short sym in
  let fee_long := (fl / 100)%float in
  let fee_short := (fs / 100)%float in
  let slippage := (sl / 100)%float in
  rate_difference o = (rate long - rate short)%float /\
  net_profit_8h o
    = (rate_difference o - (fee_long + fee_short + 2 * slippage + 0.002))%float /\
  estimated_fees o = (fee_long + fee_short + 2 * slippage + 0.002)%float /\
  potential_profit_8h o = rate_difference o.
Proof.
  intros Hl Hs Hsl. unfold _calculate_arbitrage_profit, dict_get. cbn.
  rewrite Hl, Hs, Hsl. repeat split.
Qed.

Lemma net_profit_formula_witness :
  let o := Sample.wide_opportunity in
  rate_difference o = (0.0060 - 0.0002)%float /\
  net_profit_8h o
    = (rate_difference o - (0.08 / 100 + 0.08 / 100 + 2 * (0.01 / 100) + 0.002))%float /\
  estimated_fees o = (0.08 / 100 + 0.08 / 100 + 2 * (0.01 / 100) + 0.002)%float /\
  potential_profit_8h o = rate_difference o.
Proof.
  apply (net_profit_formula Sample.plain_collector
           (Sample.record "Binance" "BTC" 0.0060)
           (Sample.record "Bybit" "BTC" 0.0002) "BTC" 0.08 0.08 0.01);
    reflexivity.
Defined.

(** C2. Of any two records, the one with the strictly larger rate is
    assigned as the long leg and the other as the short leg.  The
    opportunities returned by [find_arbitrage_opportunities] are exactly
    those computed with that assignment for the pairs of same-symbol records
    at positions [i < j] of the input that pass the spread test and have a
    positive net profit; each of them has [long_rate >= short_rate] and
    [rate_difference = long_rate - short_rate >= 0]. *)
Theorem long_leg_has_larger_rate {Api : Type} (self : FundingRateCollector Api)
    (funding_data : list FundingRateData) :
  (forall r1 r2 hi lo, larger_rate_first r1 r2 hi lo -> legs r1 r2 = (hi, lo)) /\
  (forall o,
     In o (find_arbitrage_opportunities self funding_data) <->
     exists i j r1 r2 hi lo,
       i < j /\ funding_data !! i = Some r1 /\ funding_data !! j = Some r2 /\
       symbol r1 = symbol r2 /\
       larger_rate_first r1 r2 hi lo /\
       (0.0001 <? rate hi - rate lo)%float = true /\
       o = _calculate_arbitrage_profit self hi lo (symbol r1) /\
       (0 <? net_profit_8h o)%float = true) /\
  (forall o,
     In o (find_arbitrage_opportunities self funding_data) ->
     (short_rate o <=? long_rate o)%float = true /\
     rate_difference o = (long_rate o - short_rate o)%float /\
     (0 <=? rate_difference o)%float = true).
Proof.
  assert (Hlegs : forall r1 r2 hi lo,
            larger_rate_first r1 r2 hi lo -> legs r1 r2 = (hi, lo)).
  { intros r1 r2 hi lo [Hlt [[-> ->]|[-> ->]]].
    - unfold legs. now rewrite Hlt.
    - now apply legs_larger_rate. }
  split; [exact Hlegs|]. split.
  - intros o. rewrite In_find, In_constructed_opportunities_group. split.
    + intros [Hp (s & r1 & r2 & Hin & Ho)].
      apply In_pairs_records_of in Hin as (Hs1 & Hs2 & i & j & Hij & Hi & Hj).
      apply In_constructed in Ho as [Hthr ->].
      exists i, j, r1, r2, (fst (legs r1 r2)), (snd (legs r1 r2)).
      subst s. repeat split; try assumption; [congruence| |].
      * apply FloatSub.sub_pos_gt, FloatOrder.ltb_fcmp.
        apply FloatOrder.ltb_fcmp in Hthr. unfold fcmp in *.
        eapply FloatOrder.SFcompare_trans; [|exact Hthr]. reflexivity.
      * unfold legs. destruct (rate r2 <? rate r1)%float; cbn; auto.
    + intros (i & j & r1 & r2 & hi & lo & Hij & Hi & Hj & Hs & Hlf & Hthr & -> & Hp).
      split; [exact Hp|]. exists (symbol r1), r1, r2. split.
      * apply In_pairs_records_of. split; [reflexivity|]. split; [now symmetry|]. eauto.
      * apply In_constructed. rewrite (Hlegs _ _ _ _ Hlf). cbn [fst snd]. now split.
  - intros o Ho. apply In_find in Ho as [_ Ho].
    apply In_constructed_opportunities_group in Ho as (s & r1 & r2 & Hp & Ho).
    apply In_constructed in Ho as [Hthr ->].
    pose proof (legs_ordered r1 r2 Hthr) as Hord.
    cbn. repeat split; try assumption. now apply above_threshold_nonneg.
Qed.

(** On a pair whose second record has the larger rate: the legs are
    swapped, and the opportunity with Binance as the long leg is returned. *)
Lemma long_leg_has_larger_rate_witness :
  let low := Sample.record "Bybit" "BTC" 0.0002 in
  let high := Sample.record "Binance" "BTC" 0.0060 in
  let o := Sample.wide_opportunity in
  legs low high = (high, low) /\
  In o (find_arbitrage_opportunities Sample.plain_collector Scenario.swapped_spread) /\
  long_exchange o = "Binance" /\ short_exchange o = "Bybit" /\
  (short_rate o <=? long_rate o)%float = true /\
  rate_difference o = (long_rate o - short_rate o)%float /\
  (0 <=? rate_difference o)%float = true.
Proof.
  intros low high o.
  destruct (long_leg_has_larger_rate Sample.plain_collector Scenario.swapped_spread)
    as (Hlegs & Hiff & Hinv).
  assert (Hlf : larger_rate_first low high high low)
    by (split; [reflexivity|right; split; reflexivity]).
  assert (Hin : In o (find_arbitrage_opportunities Sample.plain_collector
                        Scenario.swapped_spread)).
  { apply Hiff. exists 0, 1, low, high, high, low.
    split; [lia|]. do 3 (split; [reflexivity|]). split; [exact Hlf|].
    split; [reflexivity|]. split; reflexivity. }
  split; [exact (Hlegs low high high low Hlf)|]. split; [exact Hin|].
  split; [reflexivity|]. split; [reflexivity|]. exact (Hinv o Hin).
Defined.

(** C3. An opportunity is returned only if it arises from two distinct
    records of one symbol, at positions [i < j] of the input, whose rate
    difference is strictly above 0.0001; no returned opportunity has a
    difference at or below 0.0001, and a symbol with a single record has no
    opportunity. *)
Theorem spread_threshold {Api : Type} (self : FundingRateCollector Api)
    (funding_data : list FundingRateData) (o : ArbitrageOpportunity) :
  In o (find_arbitrage_opportunities self funding_data) ->
  (exists i j r1 r2,
     i < j /\ funding_data !! i = Some r1 /\ funding_data !! j = Some r2 /\
     symbol r1 = symbol r2 /\ op_symbol o = symbol r1 /\
     o = _calculate_arbitrage_profit self
           (fst (legs r1 r2)) (snd (legs r1 r2)) (symbol r1)) /\
  (0.0001 <? rate_difference o)%float = true /\
  (rate_difference o <=? 0.0001)%float = false /\
  (forall s, length (records_of s funding_data) <= 1 -> op_symbol o <> s).
Proof.
  intros Ho. apply In_find in Ho as [_ Ho].
  apply In_constructed_opportunities_group in Ho as (s & r1 & r2 & Hp & Ho).
  apply In_constructed in Ho as [Hthr ->].
  assert (Hlen : 2 <= length (records_of s funding_data)).
  { destruct (Nat.lt_ge_cases (length (records_of s funding_data)) 2) as [Hlt|Hge];
      [|assumption].
    rewrite (pairs_short _ Hlt) in Hp. destruct Hp. }
  apply In_pairs_records_of in Hp as (Hs1 & Hs2 & i & j & Hij & Hi & Hj).
  cbn. repeat split.
  - exists i, j, r1, r2. subst s. repeat split; auto.
  - assumption.
  - now apply FloatOrder.ltb_leb_false.
  - intros s' Hs' <-. lia.
Qed.

Lemma spread_threshold_witness :
  let o := Sample.wide_opportunity in
  In o (find_arbitrage_opportunities Sample.plain_collector Sample.wide_spread) /\
  (0.0001 <? rate_difference o)%float = true /\
  (rate_difference o <=? 0.0001)%float = false.
Proof.
  split; [left; reflexivity|].
  destruct (spread_threshold Sample.plain_collector Sample.wide_spread
              Sample.wide_opportunity) as (_ & H1 & H2 & _);
    [left; reflexivity|].
  exact (conj H1 H2).
Defined.

(** C4. The returned sequence holds, up to order, the opportunities
    constructed for the surviving pairs whose [net_profit_8h] is above zero,
    each as often as it was constructed; none with [net_profit_8h <= 0] is
    in it. *)
Theorem only_profitable_returned {Api : Type} (self : FundingRateCollector Api)
    (funding_data : list FundingRateData) :
  Permutation
    (find_arbitrage_opportunities self funding_data)
    (filter (fun o => (0 <? net_profit_8h o)%float = true)
            (constructed_opportunities self funding_data)) /\
  Forall (fun o => (0 <? net_profit_8h o)%float = true /\
                   (net_profit_8h o <=? 0)%float = false)
         (find_arbitrage_opportunities self funding_data).
Proof.
  split.
  - rewrite find_arbitrage_opportunities_spec. apply sorted_reverse_perm.
  - apply Forall_forall. intros o Ho.
    apply list_elem_of_In, In_find in Ho as [Hp _]. unfold profitable in Hp.
    split; [assumption|]. now apply FloatOrder.ltb_leb_false.
Qed.

(** C5. The returned sequence is sorted by [net_profit_8h], non-increasing:
    every element's net profit is at least that of every later element. *)
Theorem result_sorted_descending {Api : Type} (self : FundingRateCollector Api)
    (funding_data : list FundingRateData) :
  StronglySorted (fun a b => (net_profit_8h b <=? net_profit_8h a)%float = true)
    (find_arbitrage_opportunities self funding_data).
Proof.
  rewrite find_arbitrage_opportunities_spec.
  apply (sorted_reverse_sorted net_profit_8h).
  apply Forall_forall. intros o Ho.
  apply list_elem_of_filter in Ho as [Hp _].
  apply FloatOrder.ltb_not_nan in Hp. tauto.
Qed.

(** C6. The result is a function of the fee table, the slippage table and
    the records alone, so two runs on the same inputs return the same
    sequence; and the sort is stable: the opportunities of any one net-profit
    value appear in the order of [enumerated], i.e. symbols by first
    occurrence, then pairs by [i < j]. *)
Theorem deterministic_and_order_stable {Api1 Api2 : Type}
    (self1 : FundingRateCollector Api1) (self2 : FundingRateCollector Api2)
    (data1 data2 : list FundingRateData) :
  fee_structure self1 = fee_structure self2 ->
  slippage_estimates self1 = slippage_estimates self2 ->
  data1 = data2 ->
  find_arbitrage_opportunities self1 data1
    = find_arbitrage_opportunities self2 data2 /\
  forall k : float,
    filter (fun o => (net_profit_8h o =? k)%float = true)
           (find_arbitrage_opportunities self1 data1)
    = filter (fun o => (net_profit_8h o =? k)%float = true)
             (enumerated self1 data1).
Proof.
  intros Hf Hs ->. split.
  - destruct self1 as [e1 f1 s1], self2 as [e2 f2 s2]. cbn in Hf, Hs. subst.
    reflexivity.
  - intros k. rewrite find_arbitrage_opportunities_spec.
    apply sorted_reverse_stable.
Qed.

Lemma deterministic_and_order_stable_witness :
  find_arbitrage_opportunities Sample.plain_collector Sample.tied
    = find_arbitrage_opportunities Sample.other_collector Sample.tied /\
  forall k : float,
    filter (fun o => (net_profit_8h o =? k)%float = true)
           (find_arbitrage_opportunities Sample.plain_collector Sample.tied)
    = filter (fun o => (net_profit_8h o =? k)%float = true)
             (enumerated Sample.plain_collector Sample.tied).
Proof.
  apply (deterministic_and_order_stable Sample.plain_collector Sample.other_collector
           Sample.tied Sample.tied); reflexivity.
Defined.

(** The tie of [Sample.tied] is broken by enumeration order: DOT occurs
    first in the input, so its opportunity precedes SOL's. *)
Example tie_keeps_enumeration_order :
  map op_symbol (find_arbitrage_opportunities Sample.plain_collector Sample.tied)
    = ["DOT"; "SOL"] /\
  (let k := (0.0060 - 0.0002 - (0.08 / 100 + 0.08 / 100 + 2 * (0.03 / 100) + 0.002))%float in
   map net_profit_8h (find_arbitrage_opportunities Sample.plain_collector Sample.tied)
     = [k; k]).
Proof. split; reflexivity. Qed.

(** The worked examples of the specification. *)
Example narrow_spread_excluded :
  find_arbitrage_opportunities Sample.plain_collector Sample.narrow_spread = [].
Proof. reflexivity. Qed.

Example wide_spread_included :
  find_arbitrage_opportunities Sample.plain_collector Sample.wide_spread
    = [Sample.wide_opportunity] /\
  net_profit_8h Sample.wide_opportunity = 0.002%float.
Proof. split; reflexivity. Qed.

(** C7. A request that fails in transport, is answered with a status other
    than 200 or carries an undecodable body yields [None] and no exception.
    Each adapter's [get_funding_rates] returns a list, possibly empty,
    whatever the network answers and whatever the payload looks like; the
    per-symbol adapters moreover carry on with the next symbol after a
    failure.  [collect_all_funding_rates] calls every adapter of [exchanges]
    in turn, skips those that raise, never raises itself, and returns the
    lists of the others concatenated in adapter order; the collector's
    [exchanges] are the enabled ones among the five adapters. *)
Theorem collection_survives_failures `{Runtime} :
  (forall self endpoint params w,
     _make_request self endpoint params w
     = (Ok match fst (session_get (base_url self ++ "/" ++ endpoint) params w) with
           | Response status_code (Some body) =>
               if (status_code =? 200)%Z then body else JNull
           | _ => JNull
           end,
        snd (session_get (base_url self ++ "/" ++ endpoint) params w))) /\
  (never_raises BinanceAPI.get_funding_rates /\
   never_raises BybitAPI.get_funding_rates /\
   never_raises OKXAPI.get_funding_rates /\
   never_raises BitgetAPI.get_funding_rates /\
   never_raises KuCoinAPI.get_funding_rates) /\
  (forall symbols w,
     OKXAPI.get_funding_rates symbols w
     = (Ok (fst (per_symbol OKXAPI.visit_symbol symbols w)),
        snd (per_symbol OKXAPI.visit_symbol symbols w)) /\
     KuCoinAPI.get_funding_rates symbols w
     = (Ok (fst (per_symbol KuCoinAPI.visit_symbol symbols w)),
        snd (per_symbol KuCoinAPI.visit_symbol symbols w))) /\
  (forall (self : FundingRateCollector Adapter) symbols w,
     collect_all_funding_rates self symbols w
     = (Ok (fst (gathered (exchanges self) symbols w)),
        snd (gathered (exchanges self) symbols w))) /\
  (forall (exchange_name : string) (api : Adapter) rest symbols w,
     gathered ((exchange_name, api) :: rest) symbols w
     = match api symbols w with
       | (Ok rates, w') =>
           (rates ++ fst (gathered rest symbols w'), snd (gathered rest symbols w'))
       | (Raise _, w') => gathered rest symbols w'
       end) /\
  (forall config exchange_name api,
     In (exchange_name, api) (exchanges (new_collector config)) ->
     In exchange_name (ENABLED_EXCHANGES config) /\ never_raises api).
Proof.
  assert (H5 : never_raises BinanceAPI.get_funding_rates /\
               never_raises BybitAPI.get_funding_rates /\
               never_raises OKXAPI.get_funding_rates /\
               never_raises BitgetAPI.get_funding_rates /\
               never_raises KuCoinAPI.get_funding_rates).
  { repeat split.
    - apply guarded_body_never_raises.
    - apply guarded_body_never_raises.
    - apply guarded_rounds_never_raise.
    - apply guarded_body_never_raises.
    - apply guarded_rounds_never_raise. }
  split.
  { intros self endpoint params w. unfold _make_request.
    destruct (session_get _ params w) as [[|status_code [body|]] w']; cbn;
      try reflexivity; destruct (status_code =? 200)%Z; reflexivity. }
  split; [exact H5|]. split.
  { intros symbols w. split.
    - apply per_symbol_spec, okx_visit_appends_only.
    - apply per_symbol_spec, kucoin_visit_appends_only. }
  split; [apply collect_all_funding_rates_spec|]. split.
  - intros exchange_name api rest symbols w. cbn [gathered].
    destruct (api symbols w) as [[rates|e] w']; [|reflexivity].
    now destruct (gathered rest symbols w').
  - intros config exchange_name api Hin. cbn [new_collector exchanges] in Hin.
    apply list_elem_of_In, list_elem_of_filter in Hin as [Hen Hin].
    cbn [fst] in Hen. split; [now apply list_elem_of_In|].
    destruct H5 as (H1 & H2 & H3 & H4 & H5).
    rewrite !elem_of_cons, elem_of_nil in Hin.
    destruct Hin as [E|[E|[E|[E|[E|[]]]]]]; injection E as _ ->; assumption.
Qed.

Lemma collection_survives_failures_witness :
  In "okx" (ENABLED_EXCHANGES DefaultConfig) /\
  never_raises (H := Sample.runtime) OKXAPI.get_funding_rates /\
  collect_all_funding_rates (H := Sample.runtime) Sample.patchy_collector
    ["BTC"; "ETH"; "SOL"; "ADA"; "DOT"] 0
  = (Ok [{| exchange := "OKX"; symbol := "BTC"; rate := 0.0060;
            timestamp := 0%Z; next_funding_time := Some 1700000000000000%Z;
            mark_price := None |};
         {| exchange := "Binance"; symbol := "BTC"; rate := 0.0002;
            timestamp := 1%Z; next_funding_time := Some 1700000000000000%Z;
            mark_price := Some 35000.5%float |}], 2).
Proof.
  destruct (collection_survives_failures (H := Sample.runtime))
    as (_ & _ & _ & Hcollect & _ & Henabled).
  destruct (Henabled DefaultConfig "okx" OKXAPI.get_funding_rates) as [H1 H2].
  - right; right; left; reflexivity.
  - split; [exact H1|]. split; [exact H2|].
    rewrite Hcollect. reflexivity.
Defined.

(** The per-symbol adapter in the sample world: the transport failure, the
    status 500, the undecodable body and the misshapen payload each cost
    their own symbol only. *)
Example okx_isolates_symbols :
  OKXAPI.get_funding_rates (H := Sample.runtime)
    ["ETH"; "SOL"; "BTC"; "ADA"; "DOT"; "XRP"] 0
  = (Ok [{| exchange := "OKX"; symbol := "BTC"; rate := 0.0060;
            timestamp := 0%Z; next_funding_time := Some 1700000000000000%Z;
            mark_price := None |}], 1).
Proof. reflexivity. Qed.

(** C8. A scan never raises and writes at most one file.  With
    [opportunities] the result of the search on the collected records: if
    some opportunity has [net_profit_8h >= min_profit_threshold], the scan
    displays the first five of those meeting the threshold and writes
    exactly one file, named [<data_dir>/opportunities_<strftime now>.json]
    for the clock reading [now] taken right after the collection; its
    content is the JSON array of the entries of all opportunities meeting
    the threshold, in order, each captured at the next reading of the clock.
    Every entry has the ten fields, in order, and mirrors its opportunity:
    symbol, exchanges, rates, rate difference, net profit, next funding time,
    the capture time, and [estimated_profit_usd = net_profit_8h *
    position_size].  If no opportunity meets the threshold, no file is
    written. *)
Theorem profitable_set_is_saved `{Runtime} (self : FundingRateBot) (d : Desk) :
  let collected := gathered (exchanges (collector self)) (symbols self) (env d) in
  let funding_data := fst collected in
  let opportunities :=
    find_arbitrage_opportunities (collector self) funding_data in
  let profitable_ops := filter (meets_threshold self) opportunities in
  let now := fst (datetime_now (snd collected)) in
  let readings :=
    clock_readings (length profitable_ops) (snd (datetime_now (snd collected))) in
  exists d',
    scan_opportunities self d = (Ok tt, d') /\
    ((exists op, In op opportunities /\
                 (min_profit_threshold self <=? net_profit_8h op)%float = true) ->
     length (fst readings) = length profitable_ops /\
     d' = {| env := snd readings;
             displayed := displayed d ++ [take 5 profitable_ops];
             files := files d ++
               [(opportunities_file self now,
                 JList (zip_with (opportunity_entry self) (fst readings)
                          profitable_ops))] |}) /\
    ((forall op, In op opportunities ->
                 (min_profit_threshold self <=? net_profit_8h op)%float = false) ->
     files d' = files d) /\
    (forall t op,
       entry_has_fields entry_fields (opportunity_entry self t op) /\
       entry_mirrors self t op (opportunity_entry self t op)).
Proof.
  cbv zeta.
  assert (Hentry : forall t op,
            entry_has_fields entry_fields (opportunity_entry self t op) /\
            entry_mirrors self t op (opportunity_entry self t op))
    by (intros t op; split; [reflexivity|repeat split]).
  unfold scan_opportunities, try_except, mbind, M_bind, on_env at 1.
  rewrite collect_all_funding_rates_spec.
  destruct (gathered (exchanges (collector self)) (symbols self) (env d))
    as [funding_data w1]. cbn [fst snd].
  destruct funding_data as [|r0 data0].
  { (* nothing collected: the scan returns at once *)
    eexists. split; [reflexivity|]. cbn [files].
    split; [intros (op & [] & _)|]. split; [reflexivity|exact Hentry]. }
  cbn match.
  generalize (find_arbitrage_opportunities (collector self) (r0 :: data0)).
  intros opportunities.
  destruct (filter _ opportunities) as [|p0 ps] eqn:Eprof.
  - (* no opportunity meets the threshold *)
    assert (Hnone : forall op, In op opportunities ->
              (min_profit_threshold self <=? net_profit_8h op)%float = true -> False).
    { intros op Hin Hop. apply (filter_nil_not_elem_of _ _ op Eprof Hop).
      now apply list_elem_of_In. }
    destruct opportunities as [|o0 os]; eexists; (split; [reflexivity|]); cbn [files];
      (split; [intros (op & Hin & Hop); destruct (Hnone op Hin Hop)|]);
      (split; [reflexivity|exact Hentry]).
  - (* some do: display five, save all *)
    unfold display_opportunities at 1.
    rewrite save_opportunities_spec. cbv zeta. cbn [env displayed files].
    eexists. split; [reflexivity|].
    split; [intros _; split; [apply length_clock_readings|reflexivity]|].
    split; [|exact Hentry].
    cbn [files]. intros Hnone. exfalso.
    assert (Hp : p0 ∈ filter (meets_threshold self) opportunities)
      by (rewrite Eprof; apply list_elem_of_here).
    apply list_elem_of_filter in Hp as [Hp Hin]. unfold meets_threshold in Hp.
    rewrite (Hnone p0) in Hp; [discriminate|now apply list_elem_of_In].
Qed.

Section SampleScan.
#[local] Existing Instance Sample.runtime.

(** The sample scan: the collection leaves the clock at 2, the file is named
    after the reading 2 and its one entry is captured at the reading 3. *)
Lemma profitable_set_is_saved_witness :
  let profitable_ops :=
    filter (meets_threshold Sample.patchy_bot)
      (find_arbitrage_opportunities Sample.patchy_collector
         (fst (gathered (exchanges Sample.patchy_collector)
                 (symbols Sample.patchy_bot) 0))) in
  length profitable_ops = 1 /\
  scan_opportunities (H := Sample.runtime) Sample.patchy_bot Sample.empty_desk
  = (Ok tt,
     {| env := 4;
        displayed := [take 5 profitable_ops];
        files := [(opportunities_file Sample.patchy_bot 2%Z,
                   JList (zip_with (opportunity_entry Sample.patchy_bot) [3%Z]
                            profitable_ops))] |}).
Proof.
  intros profitable_ops. split; [reflexivity|].
  destruct (profitable_set_is_saved (H := Sample.runtime) Sample.patchy_bot
              Sample.empty_desk) as (d' & Hrun & Hsave & _).
  destruct Hsave as [_ Hd'].
  - eexists. split; [left; reflexivity|reflexivity].
  - rewrite Hrun, Hd'. reflexivity.
Defined.

(** The sample scan, evaluated: one file with the one opportunity that
    meets the 0.1 percent threshold; with the built-in 0.5 percent threshold
    the same opportunity is displayed but nothing is written. *)
Example sample_scan_writes_one_file :
  files (snd (scan_opportunities (H := Sample.runtime) Sample.patchy_bot
                Sample.empty_desk))
  = [("data/opportunities_20231114_221320.json",
      JList [JDict [("timestamp", JStr "2023-11-14T22:13:20");
                    ("symbol", JStr "BTC");
                    ("long_exchange", JStr "OKX");
                    ("short_exchange", JStr "Binance");
                    ("long_rate", JFloat 0.0060);
                    ("short_rate", JFloat 0.0002);
                    ("rate_difference", JFloat (0.0060 - 0.0002));
                    ("net_profit_8h_pct",
                     JFloat (0.0060 - 0.0002
                             - (0.09 / 100 + 0.08 / 100 + 2 * (0.01 / 100) + 0.002)));
                    ("estimated_profit_usd",
                     JFloat ((0.0060 - 0.0002
                              - (0.09 / 100 + 0.08 / 100 + 2 * (0.01 / 100) + 0.002))
                             * 1000));
                    ("next_funding_time", JStr "2023-11-14T22:13:20")]])].
Proof. reflexivity. Qed.

Example strict_scan_writes_nothing :
  files (snd (scan_opportunities (H := Sample.runtime) Sample.strict_bot
                Sample.empty_desk)) = [] /\
  length (displayed (snd (scan_opportunities (H := Sample.runtime)
                            Sample.strict_bot Sample.empty_desk))) = 1.
Proof. split; reflexivity. Qed.

End SampleScan.

(** C9 (amended). The fee estimate is the sum of the fee of each leg, twice
    the slippage of the symbol and the buffer [0.002], where a leg's fee is
    its exchange's table entry divided by 100, or [0.1 / 100 = 0.001] when
    the exchange is absent from the fee table, and the slippage is the
    symbol's table entry divided by 100, or [0.05 / 100 = 0.0005] when the
    symbol is absent from the slippage table.  So [estimated_fees] is
    defined for every pair, and it is at least [0.002] whenever the table
    entries that are used are non-negative. *)
Theorem default_fees_and_fee_floor {Api : Type} (self : FundingRateCollector Api)
    (long short : FundingRateData) (sym : string) :
  let o := _calculate_arbitrage_profit self long short sym in
  estimated_fees o
  = (leg_fee self (exchange long) + leg_fee self (exchange short)
     + 2 * symbol_slippage self sym + 0.002)%float /\
  (fee_structure self !! exchange long = None ->
   fee_structure self !! exchange short = None ->
   slippage_estimates self !! sym = None ->
   estimated_fees o = (0.001 + 0.001 + 2 * 0.0005 + 0.002)%float) /\
  ((forall v, fee_structure self !! exchange long = Some v ->
              (0 <=? v)%float = true) ->
   (forall v, fee_structure self !! exchange short = Some v ->
              (0 <=? v)%float = true) ->
   (forall v, slippage_estimates self !! sym = Some v ->
              (0 <=? v)%float = true) ->
   (0.002 <=? estimated_fees o)%float = true).
Proof.
  cbn zeta.
  assert (Heq : estimated_fees (_calculate_arbitrage_profit self long short sym)
                = (leg_fee self (exchange long) + leg_fee self (exchange short)
                   + 2 * symbol_slippage self sym + 0.002)%float).
  { cbn [_calculate_arbitrage_profit estimated_fees].
    unfold leg_fee, symbol_slippage, dict_get.
    destruct (fee_structure self !! exchange long),
             (fee_structure self !! exchange short),
             (slippage_estimates self !! sym); reflexivity. }
  split; [exact Heq|]. split.
  - intros Hl Hs Hsl. rewrite Heq. unfold leg_fee, symbol_slippage.
    now rewrite Hl, Hs, Hsl.
  - intros Hl Hs Hsl. cbn [_calculate_arbitrage_profit estimated_fees].
    unfold dict_get. apply Rounding.add_buffer_ge.
    assert (Hdef : forall (d : gmap string float) k (dflt : float),
               nonneg dflt ->
               (forall v, d !! k = Some v -> (0 <=? v)%float = true) ->
               nonneg (match d !! k with Some v => v | None => dflt end / 100)).
    { intros d k dflt Hd Hv. apply Rounding.div_100_nonneg.
      destruct (d !! k) as [v|]; [now apply Hv|assumption]. }
    repeat apply Rounding.add_nonneg; try apply Rounding.mul_2_nonneg;
      apply Hdef; try assumption; reflexivity.
Qed.

(** A long leg on an exchange without an entry and a symbol without an
    entry, with a short leg on Bybit ([0.08] percent). *)
Lemma default_fees_and_fee_floor_witness :
  let o := _calculate_arbitrage_profit Sample.plain_collector
             (Sample.record "Kraken" "XRP" 0.0060)
             (Sample.record "Bybit" "XRP" 0.0002) "XRP" in
  estimated_fees o = (0.001 + 0.08 / 100 + 2 * 0.0005 + 0.002)%float /\
  (0.002 <=? estimated_fees o)%float = true.
Proof.
  destruct (default_fees_and_fee_floor Sample.plain_collector
              (Sample.record "Kraken" "XRP" 0.0060)
              (Sample.record "Bybit" "XRP" 0.0002) "XRP")
    as (Heq & _ & Hfloor).
  split; [exact Heq|].
  apply Hfloor; intros v Hv; vm_compute in Hv; inversion Hv; reflexivity.
Defined.

(** C9 as stated fails: with a rebate in the fee table the fee sum falls
    below [0.002]. *)
Lemma fee_floor_counterexample :
  let o := _calculate_arbitrage_profit Sample.rebate_collector
             (Sample.record "Binance" "BTC" 0.0060)
             (Sample.record "Binance" "BTC" 0.0002) "BTC" in
  (0.002 <=? estimated_fees o)%float = false /\
  (estimated_fees o <? 0)%float = true.
Proof. split; reflexivity. Qed.

(** C10. The two legs need not come from different exchanges: on two
    records of one symbol from the same exchange, far enough apart, the
    search returns an opportunity whose long and short exchange coincide. *)
Theorem same_exchange_pair_reported :
  exists (r1 r2 : FundingRateData) (o : ArbitrageOpportunity),
    Sample.same_exchange = [r1; r2] /\
    symbol r1 = symbol r2 /\ exchange r1 = exchange r2 /\
    In o (find_arbitrage_opportunities Sample.plain_collector Sample.same_exchange) /\
    long_exchange o = short_exchange o.
Proof.
  do 3 eexists. split; [reflexivity|].
  repeat split; [left; reflexivity|reflexivity].
Qed.

(** * Further properties of the code *)

(** ** Order of the input *)

Lemma Permutation_flat_map_pointwise {A B : Type} (f g : A -> list B) (l l' : list A) :
  Permutation l l' -> (forall x, Permutation (f x) (g x)) ->
  Permutation (flat_map f l) (flat_map g l').
Proof.
  intros Hl Hfg. rewrite <- (Permutation_flat_map g Hl).
  clear Hl. induction l as [|x l IH]; simpl; [constructor|].
  now apply Permutation_app.
Qed.

(** The opportunities of the pairs of a list do not depend on the order of
    the list when those of a pair do not depend on the order of the pair. *)
Lemma Permutation_flat_map_pairs {A B : Type} (f : A * A -> list B) (l l' : list A) :
  (forall a b, f (a, b) = f (b, a)) ->
  Permutation l l' ->
  Permutation (flat_map f (pairs l)) (flat_map f (pairs l')).
Proof.
  intros Hsym. induction 1 as [|x l l' Hl IH|x y l|l l' l'' _ IH1 _ IH2].
  - constructor.
  - cbn [pairs]. rewrite !flat_map_app. apply Permutation_app; [|exact IH].
    apply Permutation_flat_map, Permutation_map, Hl.
  - cbn [pairs map]. rewrite !flat_map_app. cbn [flat_map].
    rewrite (Hsym y x), <- !app_assoc.
    apply Permutation_app_head.
    rewrite !app_assoc. apply Permutation_app_tail, Permutation_app_comm.
  - etransitivity; eassumption.
Qed.

Section OrderFacts.
Context {Api : Type}.
Variable self : FundingRateCollector Api.

(** Two rates of which neither is below the other have no spread. *)
Lemma no_order_no_spread x y :
  (x <? y)%float = false -> (y <? x)%float = false ->
  (0.0001 <? x - y)%float = false.
Proof.
  intros Hxy Hyx. destruct (0.0001 <? x - y)%float eqn:E; [|reflexivity].
  assert (Hpos : (0 <? x - y)%float = true).
  { apply FloatOrder.ltb_fcmp. apply FloatOrder.ltb_fcmp in E.
    unfold fcmp in *. eapply FloatOrder.SFcompare_trans; [|exact E]. reflexivity. }
  apply FloatSub.sub_pos_gt in Hpos. congruence.
Qed.

Lemma constructed_sym s r1 r2 :
  constructed self s (r1, r2) = constructed self s (r2, r1).
Proof.
  unfold constructed, legs. cbn [fst snd].
  destruct (rate r2 <? rate r1)%float eqn:E21, (rate r1 <? rate r2)%float eqn:E12;
    try reflexivity.
  - apply FloatOrder.ltb_leb in E21.
    rewrite (FloatOrder.ltb_leb_false _ _ E12) in E21. discriminate.
  - rewrite (no_order_no_spread _ _ E21 E12), (no_order_no_spread _ _ E12 E21).
    reflexivity.
Qed.

Lemma constructed_opportunities_keys funding_data :
  constructed_opportunities self funding_data
  = flat_map (fun s => flat_map (constructed self s) (pairs (records_of s funding_data)))
             (first_occurrences (map symbol funding_data)).
Proof. unfold constructed_opportunities, groups_of. now rewrite flat_map_map. Qed.

Lemma constructed_opportunities_Permutation data data' :
  Permutation data data' ->
  Permutation (constructed_opportunities self data)
              (constructed_opportunities self data').
Proof.
  intros Hp. rewrite !constructed_opportunities_keys.
  apply Permutation_flat_map_pointwise.
  - apply NoDup_Permutation; try apply NoDup_first_occurrences.
    intros s. rewrite !elem_of_first_occurrences, !list_elem_of_In.
    split; apply Permutation_in; [|symmetry]; now apply Permutation_map.
  - intros s. apply Permutation_flat_map_pairs.
    + intros a b. apply constructed_sym.
    + unfold records_of. now rewrite Hp.
Qed.

End OrderFacts.

(** X1. The opportunities found do not depend on the order in which the
    records were collected: reordering the input reorders the result at most
    (among opportunities of equal net profit). *)
Theorem search_ignores_input_order {Api : Type} (self : FundingRateCollector Api)
    (data data' : list FundingRateData) :
  Permutation data data' ->
  Permutation (find_arbitrage_opportunities self data)
              (find_arbitrage_opportunities self data').
Proof.
  intros Hp. rewrite !find_arbitrage_opportunities_spec, !sorted_reverse_perm.
  unfold enumerated. now rewrite (constructed_opportunities_Permutation self _ _ Hp).
Qed.

(** ** Counting *)

Lemma length_pairs {A : Type} (l : list A) :
  2 * length (pairs l) = length l * (length l - 1).
Proof.
  induction l as [|x l IH]; [reflexivity|].
  cbn [pairs]. rewrite length_app, length_map. cbn [length]. nia.
Qed.

(** Every element is counted in exactly one class of a list of distinct keys
    that holds its own key. *)
Lemma sum_length_classes {A : Type} (key : A -> string) (ks : list string) (l : list A) :
  NoDup ks -> (forall x, In x l -> In (key x) ks) ->
  sum_list (map (fun k => length (filter (fun x => key x = k) l)) ks) = length l.
Proof.
  intros Hnd. induction l as [|x l IH]; intros Hin.
  - clear Hnd Hin. induction ks as [|k ks IHk]; [reflexivity|]. exact IHk.
  - cbn [length]. rewrite <- IH by (intros y Hy; apply Hin; now right).
    assert (Hx : In (key x) ks) by (apply Hin; now left).
    clear IH Hin. induction Hnd as [|k ks Hk Hnd IHk]; [destruct Hx|].
    cbn [map sum_list]. rewrite filter_cons.
    destruct (decide (key x = k)) as [E|E].
    + assert (Hm : map (fun k' => length (filter (fun y => key y = k') (x :: l))) ks
                   = map (fun k' => length (filter (fun y => key y = k') l)) ks).
      { apply map_ext_in. intros k' Hk'.
        rewrite filter_cons, decide_False; [reflexivity|].
        intros E'. apply Hk. rewrite <- E, E'. now apply list_elem_of_In. }
      rewrite Hm. cbn [length]. unfold id. lia.
    + destruct Hx as [Hx|Hx]; [congruence|]. rewrite (IHk Hx). unfold id. lia.
Qed.

Lemma sum_pairs_le (ns : list nat) :
  sum_list (map (fun n => n * (n - 1)) ns) <= sum_list ns * (sum_list ns - 1).
Proof.
  induction ns as [|n ns IH]; [reflexivity|]. cbn [map sum_list].
  generalize dependent (sum_list (map (fun n => n * (n - 1)) ns)).
  generalize (sum_list ns). intros S T IH. unfold id.
  destruct n as [|n]; [simpl; lia|]. destruct S as [|S].
  - simpl in *. assert (T = 0) by lia. subst. simpl. lia.
  - replace (Datatypes.S n - 1) with n by lia.
    replace (Datatypes.S S - 1) with S in IH by lia.
    replace (Datatypes.S n + Datatypes.S S - 1) with (n + Datatypes.S S) by lia. nia.
Qed.

Lemma length_flat_map_le {A B : Type} (f : A -> list B) (l : list A) (c : nat) :
  (forall x, length (f x) <= c) -> length (flat_map f l) <= c * length l.
Proof.
  intros Hf. induction l as [|x l IH]; simpl; [lia|].
  rewrite length_app. specialize (Hf x). lia.
Qed.

Lemma length_flat_map_sum {A B : Type} (f : A -> list B) (l : list A) :
  length (flat_map f l) = sum_list (map (fun x => length (f x)) l).
Proof.
  induction l as [|x l IH]; simpl; [reflexivity|]. now rewrite length_app, IH.
Qed.

Lemma sum_list_le {A : Type} (f g : A -> nat) (l : list A) :
  (forall x, f x <= g x) ->
  sum_list (map f l) <= sum_list (map g l).
Proof.
  intros Hfg. induction l as [|x l IH]; simpl; [lia|]. specialize (Hfg x). lia.
Qed.

Lemma length_constructed {Api : Type} (self : FundingRateCollector Api) s p :
  length (constructed self s p) <= 1.
Proof.
  unfold constructed. destruct (legs _ _) as [a b].
  destruct (0.0001 <? _)%float; simpl; lia.
Qed.

(** X2. From [n] records the search returns at most [n (n - 1) / 2]
    opportunities, one per pair of records at most. *)
Theorem at_most_one_opportunity_per_pair {Api : Type}
    (self : FundingRateCollector Api) (funding_data : list FundingRateData) :
  2 * length (find_arbitrage_opportunities self funding_data)
  <= length funding_data * (length funding_data - 1).
Proof.
  rewrite find_arbitrage_opportunities_spec, (Permutation_length (sorted_reverse_perm _ _)).
  unfold enumerated. rewrite constructed_opportunities_keys.
  match goal with |- context [filter profitable ?l] =>
    pose proof (length_filter profitable l) as H end.
  rewrite length_flat_map_sum in H.
  set (ks := first_occurrences (map symbol funding_data)) in *.
  set (n := fun s => length (records_of s funding_data)).
  assert (H1 : 2 * sum_list (map (fun s => length (flat_map (constructed self s)
                   (pairs (records_of s funding_data)))) ks)
               <= sum_list (map (fun s => n s * (n s - 1)) ks)).
  { clear H. induction ks as [|s ks IH]; [simpl; lia|]. cbn [map sum_list].
    pose proof (length_flat_map_le (constructed self s)
                  (pairs (records_of s funding_data)) 1 (length_constructed self s)).
    pose proof (length_pairs (records_of s funding_data)) as Hp.
    fold (n s) in Hp. cbv [id] in *. lia. }
  assert (H2 : sum_list (map n ks) = length funding_data).
  { apply (sum_length_classes symbol); [apply NoDup_first_occurrences|].
    intros x Hx. apply list_elem_of_In, elem_of_first_occurrences, list_elem_of_In.
    now apply in_map. }
  pose proof (sum_pairs_le (map n ks)) as H3. rewrite map_map, H2 in H3. lia.
Qed.

(** ** Strict spread *)

(** X3. In every returned opportunity the long rate is strictly above the
    short rate, neither rate is NaN, and the rate difference is strictly
    above the estimated fees. *)
Theorem spread_beats_fees {Api : Type} (self : FundingRateCollector Api)
    (funding_data : list FundingRateData) (o : ArbitrageOpportunity) :
  In o (find_arbitrage_opportunities self funding_data) ->
  (short_rate o <? long_rate o)%float = true /\
  is_NaN (long_rate o) = false /\ is_NaN (short_rate o) = false /\
  (estimated_fees o <? rate_difference o)%float = true.
Proof.
  intros Ho. apply In_find in Ho as [Hnet Ho].
  apply In_constructed_opportunities_group in Ho as (s & r1 & r2 & _ & Ho).
  apply In_constructed in Ho as [Hthr ->].
  unfold profitable in Hnet. cbn in *.
  set (l := fst (legs r1 r2)) in *. set (r := snd (legs r1 r2)) in *.
  assert (Hlt : (rate r <? rate l)%float = true).
  { apply FloatSub.sub_pos_gt. apply FloatOrder.ltb_fcmp.
    apply FloatOrder.ltb_fcmp in Hthr. unfold fcmp in *.
    eapply FloatOrder.SFcompare_trans; [|exact Hthr]. reflexivity. }
  split; [exact Hlt|]. apply FloatOrder.ltb_not_nan in Hlt as [Hr Hl].
  repeat split; try assumption.
  now apply FloatSub.sub_pos_gt.
Qed.

(** ** More records, more opportunities *)

Lemma In_pairs_sublist {A : Type} (l1 l2 : list A) (p : A * A) :
  l1 `sublist_of` l2 -> In p (pairs l1) -> In p (pairs l2).
Proof.
  induction 1 as [|x l1 l2 Hs IH|x l1 l2 Hs IH]; cbn; [tauto| |].
  - rewrite !in_app_iff, !in_map_iff. intros [(y & <- & Hy)|Hp]; [left|auto].
    exists y. split; [reflexivity|].
    apply list_elem_of_In. eapply elem_of_sublist; [|eassumption].
    now apply list_elem_of_In.
  - rewrite in_app_iff. auto.
Qed.

(** X4. Records only add opportunities: what the search finds in a
    subsequence of the data it also finds in the data. *)
Theorem more_records_keep_opportunities {Api : Type} (self : FundingRateCollector Api)
    (data data' : list FundingRateData) (o : ArbitrageOpportunity) :
  data `sublist_of` data' ->
  In o (find_arbitrage_opportunities self data) ->
  In o (find_arbitrage_opportunities self data').
Proof.
  intros Hs. rewrite !In_find, !In_constructed_opportunities_group.
  intros [Hp (s & r1 & r2 & Hin & Ho)]. split; [assumption|].
  exists s, r1, r2. split; [|assumption]. unfold records_of in *.
  apply In_pairs_filter in Hin as (Hin & H1 & H2). apply In_pairs_filter.
  split; [|tauto]. eapply In_pairs_sublist; eassumption.
Qed.

(** ** The fee estimate *)

(** X5. The fee estimate of a pair does not depend on which of its records
    is the long leg. *)
Theorem fee_estimate_symmetric {Api : Type} (self : FundingRateCollector Api)
    (a b : FundingRateData) (s : string) :
  estimated_fees (_calculate_arbitrage_profit self a b s)
  = estimated_fees (_calculate_arbitrage_profit self b a s).
Proof.
  cbn. do 2 f_equal. apply FloatSub.add_comm.
Qed.

(** ** What the adapters append *)

Section AdapterFacts.
Context `{Runtime}.

Lemma silent_ret {A : Type} (a : A) : silent (mret a).
Proof. intros fr. reflexivity. Qed.

Lemma silent_lift {A : Type} (r : result A) : silent (lift_result r).
Proof. intros fr. reflexivity. Qed.

Lemma silent_on_world {A : Type} (m : M World A) : silent (on_world m).
Proof. intros fr. unfold on_world. now destruct (m (world fr)). Qed.

Lemma silent_bind {A B : Type} (m : M Frame A) (k : A -> M Frame B) :
  silent m -> (forall a, silent (k a)) -> silent (m ≫= k).
Proof.
  intros Hm Hk fr. unfold mbind, M_bind. specialize (Hm fr).
  destruct (m fr) as [[a|e] fr1]; cbn in *; [|assumption].
  now rewrite Hk.
Qed.

Ltac solve_silent :=
  repeat first
    [ apply silent_ret | apply silent_lift | apply silent_on_world
    | apply silent_bind; [|intros ?]
    | match goal with
      | |- silent (if ?b then _ else _) => destruct b
      | |- silent (match ?x with _ => _ end) => destruct x
      end ].

Lemma silent_read_next_funding_time item : silent (read_next_funding_time item).
Proof. unfold read_next_funding_time. solve_silent. Qed.

Lemma silent_code_is_200000 data : silent (KuCoinAPI.code_is_200000 data).
Proof. unfold KuCoinAPI.code_is_200000. solve_silent. Qed.

Lemma one_record_ret P : one_record P (mret tt).
Proof. intros fr. cbn. now left. Qed.

Lemma one_record_append P r : P r -> one_record P (append r).
Proof. intros Hr fr. cbn. right. eauto. Qed.

Lemma one_record_bind {A : Type} P (m : M Frame A) (k : A -> M Frame unit) :
  silent m -> (forall a, one_record P (k a)) -> one_record P (m ≫= k).
Proof.
  intros Hm Hk fr. unfold mbind, M_bind. specialize (Hm fr).
  destruct (m fr) as [[a|e] fr1]; cbn in *; [|assumption].
  specialize (Hk a fr1). destruct (k a fr1) as [[[]|e] fr2]; now rewrite <- Hm.
Qed.

Lemma extends_one_record P m : one_record P m -> extends P m.
Proof.
  intros Hm fr. specialize (Hm fr). destruct (m fr) as [[[]|e] fr1]; cbn.
  - destruct Hm as [->|(r & -> & Hr)].
    + exists []. now rewrite app_nil_r.
    + exists [r]. split; [reflexivity|]. now constructor.
  - exists []. now rewrite app_nil_r.
Qed.

Lemma extends_silent {A : Type} P (m : M Frame A) : silent m -> extends P m.
Proof. intros Hm fr. exists []. now rewrite app_nil_r. Qed.

Lemma extends_bind {A B : Type} P (m : M Frame A) (k : A -> M Frame B) :
  extends P m -> (forall a, extends P (k a)) -> extends P (m ≫= k).
Proof.
  intros Hm Hk fr. unfold mbind, M_bind. destruct (Hm fr) as (rs & E & Hrs).
  destruct (m fr) as [[a|e] fr1]; cbn in *; [|eauto].
  destruct (Hk a fr1) as (rs' & E' & Hrs'). exists (rs ++ rs').
  rewrite E', E, app_assoc. split; [reflexivity|]. now apply Forall_app.
Qed.

Lemma extends_for_each {X : Type} P (body : X -> M Frame unit) (l : list X) :
  (forall x, In x l -> extends P (body x)) -> extends P (for_each l body).
Proof.
  induction l as [|x l IH]; intros Hb; cbn [for_each].
  - apply extends_silent, silent_ret.
  - apply extends_bind; [apply Hb; now left|]. intros _. apply IH.
    intros y Hy. apply Hb. now right.
Qed.

Lemma extends_try {A : Type} P (m : M Frame A) (h : exn -> M Frame A) :
  extends P m -> (forall e, extends P (h e)) -> extends P (try_except m h).
Proof.
  intros Hm Hh fr. unfold try_except. destruct (Hm fr) as (rs & E & Hrs).
  destruct (m fr) as [[a|e] fr1]; cbn in *; [eauto|].
  destruct (Hh e fr1) as (rs' & E' & Hrs'). exists (rs ++ rs').
  rewrite E', E, app_assoc. split; [reflexivity|]. now apply Forall_app.
Qed.

Lemma extends_returning_list P (body : M Frame unit) w rates w' :
  extends P body -> returning_list body w = (Ok rates, w') -> Forall P rates.
Proof.
  intros Hb. unfold returning_list.
  destruct (Hb {| world := w; items := [] |}) as (rs & E & Hrs).
  destruct (body _) as [[[]|e] fr]; [|discriminate].
  intros [= <- <-]. cbn in E. now rewrite E.
Qed.

(** The base symbol the batch adapters find for an instrument name is a key
    of the mapping and one of the requested symbols. *)
Lemma base_symbol_of_mapped mapping symbol_name base :
  base_symbol_of mapping symbol_name = Some base -> is_Some (assoc base mapping).
Proof.
  induction mapping as [|[b full] rest IH]; cbn; [discriminate|].
  destruct (eq_str symbol_name full).
  - intros [= ->]. rewrite String.eqb_refl. eauto.
  - intros Hb. destruct (String.eqb b base); eauto.
Qed.

Lemma wanted_spec mapping symbol_name symbols base :
  wanted mapping symbol_name symbols = Some base ->
  In base symbols /\ is_Some (assoc base mapping).
Proof.
  unfold wanted. destruct (base_symbol_of mapping symbol_name) as [b|] eqn:E;
    [|discriminate].
  destruct (negb (String.eqb b "")); cbn; [|discriminate].
  destruct (bool_decide (b ∈ symbols)) eqn:Hb; [|discriminate].
  intros [= <-]. apply bool_decide_eq_true in Hb.
  split; [now apply list_elem_of_In|]. eapply base_symbol_of_mapped; eassumption.
Qed.

Ltac solve_one_record :=
  repeat first
    [ apply one_record_ret
    | apply one_record_append
    | apply one_record_bind;
      [ first [ apply silent_read_next_funding_time
              | apply silent_code_is_200000 | solve [solve_silent] ]
      | intros ? ]
    | match goal with
      | |- one_record _ (if ?b then _ else _) => destruct b
      | |- one_record _ (let '(_, _) := ?p in _) => destruct p
      end ].

Lemma binance_visit_one_record symbols item :
  one_record (record_of "Binance" BinanceAPI.self symbols)
             (BinanceAPI.visit_item symbols item).
Proof.
  unfold BinanceAPI.visit_item. apply one_record_bind; [solve_silent|].
  intros symbol_name.
  destruct (wanted _ symbol_name symbols) as [base|] eqn:E; [|apply one_record_ret].
  apply wanted_spec in E as [Hin Hmap]. solve_one_record. now split.
Qed.

Lemma bybit_visit_one_record symbols item :
  one_record (record_of "Bybit" BybitAPI.self symbols)
             (BybitAPI.visit_item symbols item).
Proof.
  unfold BybitAPI.visit_item. apply one_record_bind; [solve_silent|].
  intros symbol_name.
  destruct (wanted _ symbol_name symbols) as [base|] eqn:E; [|apply one_record_ret].
  apply wanted_spec in E as [Hin Hmap]. solve_one_record. now split.
Qed.

Lemma bitget_visit_one_record symbols item :
  one_record (record_of "Bitget" BitgetAPI.self symbols)
             (BitgetAPI.visit_item symbols item).
Proof.
  unfold BitgetAPI.visit_item. apply one_record_bind; [solve_silent|].
  intros symbol_name.
  destruct (wanted _ symbol_name symbols) as [base|] eqn:E; [|apply one_record_ret].
  apply wanted_spec in E as [Hin Hmap]. solve_one_record. now split.
Qed.

Lemma okx_visit_one_record symbol :
  one_record (record_of "OKX" OKXAPI.self [symbol]) (OKXAPI.visit_symbol symbol).
Proof.
  unfold OKXAPI.visit_symbol.
  destruct (assoc symbol (symbol_mapping OKXAPI.self)) as [okx_symbol|] eqn:E;
    [|apply one_record_ret].
  solve_one_record.
  all: split; [reflexivity|]; split; [now left|];
    change (is_Some (assoc symbol (symbol_mapping OKXAPI.self))); rewrite E; eauto.
Qed.

Lemma kucoin_visit_one_record symbol :
  one_record (record_of "KuCoin" KuCoinAPI.self [symbol])
             (KuCoinAPI.visit_symbol symbol).
Proof.
  unfold KuCoinAPI.visit_symbol.
  destruct (assoc symbol (symbol_mapping KuCoinAPI.self)) as [kucoin_symbol|] eqn:E;
    [|apply one_record_ret].
  solve_one_record.
  all: split; [reflexivity|]; split; [now left|];
    change (is_Some (assoc symbol (symbol_mapping KuCoinAPI.self))); rewrite E; eauto.
Qed.

Lemma record_of_requested label self symbol symbols r :
  In symbol symbols -> record_of label self [symbol] r -> record_of label self symbols r.
Proof.
  intros Hin (Hl & [E|[]] & Hm). split; [assumption|]. split; [|assumption].
  now rewrite <- E.
Qed.

Lemma extends_mono {A : Type} (P Q : FundingRateData -> Prop) (m : M Frame A) :
  (forall r, P r -> Q r) -> extends P m -> extends Q m.
Proof.
  intros HPQ Hm fr. destruct (Hm fr) as (rs & E & Hrs). exists rs.
  split; [assumption|]. eapply Forall_impl; eassumption.
Qed.

Ltac solve_extends :=
  repeat first
    [ apply extends_silent; solve [solve_silent]
    | apply extends_bind; [|intros ?]
    | apply extends_try; [|intros ?]
    | match goal with
      | |- extends _ (if ?b then _ else _) => destruct b
      end ].

Lemma answers_batch label self (body : list string -> M Frame unit) :
  (forall symbols, extends (record_of label self symbols) (body symbols)) ->
  answers_for label self (fun symbols =>
    returning_list (try_except (body symbols) (fun _ => mret tt))).
Proof.
  intros Hb symbols w.
  destruct (guarded_body_never_raises body symbols w) as (rates & w' & E).
  exists rates, w'. split; [exact E|].
  eapply extends_returning_list; [|exact E].
  apply extends_try; [apply Hb|]. intros e. apply extends_silent, silent_ret.
Qed.

Lemma answers_per_symbol label self (visit : string -> M Frame unit) :
  (forall symbol, one_record (record_of label self [symbol]) (visit symbol)) ->
  answers_for label self (fun symbols =>
    returning_list (for_each symbols (fun symbol =>
      try_except (visit symbol) (fun _ => mret tt)))).
Proof.
  intros Hv symbols w.
  destruct (guarded_rounds_never_raise visit symbols w) as (rates & w' & E).
  exists rates, w'. split; [exact E|].
  eapply extends_returning_list; [|exact E].
  apply extends_for_each. intros symbol Hin.
  apply extends_try; [|intros e; apply extends_silent, silent_ret].
  eapply extends_mono; [|apply extends_one_record, Hv].
  intros r. now apply record_of_requested.
Qed.

Lemma binance_answers :
  answers_for "Binance" BinanceAPI.self BinanceAPI.get_funding_rates.
Proof.
  apply (answers_batch "Binance" BinanceAPI.self). intros symbols.
  solve_extends. apply extends_for_each. intros item _.
  apply extends_one_record, binance_visit_one_record.
Qed.

Lemma bybit_answers :
  answers_for "Bybit" BybitAPI.self BybitAPI.get_funding_rates.
Proof.
  apply (answers_batch "Bybit" BybitAPI.self). intros symbols.
  solve_extends. apply extends_for_each. intros item _.
  apply extends_one_record, bybit_visit_one_record.
Qed.

Lemma bitget_answers :
  answers_for "Bitget" BitgetAPI.self BitgetAPI.get_funding_rates.
Proof.
  apply (answers_batch "Bitget" BitgetAPI.self). intros symbols.
  solve_extends. apply extends_for_each. intros item _.
  apply extends_one_record, bitget_visit_one_record.
Qed.

Lemma okx_answers : answers_for "OKX" OKXAPI.self OKXAPI.get_funding_rates.
Proof. apply answers_per_symbol, okx_visit_one_record. Qed.

Lemma kucoin_answers :
  answers_for "KuCoin" KuCoinAPI.self KuCoinAPI.get_funding_rates.
Proof. apply answers_per_symbol, kucoin_visit_one_record. Qed.

(** X6. Whatever the exchange sends, each of the three listing adapters
    (Binance, Bybit, Bitget) returns a list, and every record in it carries
    the adapter's own exchange label and a symbol that was requested and
    that the adapter has an instrument for. *)
Theorem listing_adapters_return_what_was_asked :
  answers_for "Binance" BinanceAPI.self BinanceAPI.get_funding_rates /\
  answers_for "Bybit" BybitAPI.self BybitAPI.get_funding_rates /\
  answers_for "Bitget" BitgetAPI.self BitgetAPI.get_funding_rates.
Proof.
  repeat split; [apply binance_answers | apply bybit_answers | apply bitget_answers].
Qed.

(** *** The per-symbol adapters *)

Lemma per_symbol_sublist (visit : string -> M Frame unit) symbols w :
  (forall s, one_record (fun r => symbol r = s) (visit s)) ->
  map symbol (fst (per_symbol visit symbols w)) `sublist_of` symbols.
Proof.
  intros Hv. revert w. induction symbols as [|s rest IH]; intros w; cbn.
  - constructor.
  - specialize (Hv s {| world := w; items := [] |}).
    destruct (visit s _) as [[[]|e] fr]; cbn in *;
      specialize (IH (world fr));
      destruct (per_symbol visit rest (world fr)) as [more w']; cbn in *.
    + destruct Hv as [->|(r & -> & <-)]; cbn.
      * now apply sublist_cons.
      * now apply sublist_skip.
    + rewrite Hv. cbn. now apply sublist_cons.
Qed.

Lemma per_symbol_filter (visit : string -> M Frame unit) (Q : string -> Prop)
    `{!forall s, Decision (Q s)} symbols w :
  (forall s, ~ Q s -> visit s = mret tt) ->
  per_symbol visit (filter Q symbols) w = per_symbol visit symbols w.
Proof.
  intros Hv. revert w. induction symbols as [|s rest IH]; intros w; [reflexivity|].
  rewrite filter_cons. destruct (decide (Q s)) as [Hs|Hs].
  - cbn. now rewrite IH.
  - rewrite IH. cbn [per_symbol]. rewrite (Hv s Hs). cbn.
    now destruct (per_symbol visit rest w).
Qed.

Lemma one_record_symbol label self s (m : M Frame unit) :
  one_record (record_of label self [s]) m -> one_record (fun r => symbol r = s) m.
Proof.
  intros Hm fr. specialize (Hm fr). destruct (m fr) as [[[]|e] fr']; [|assumption].
  destruct Hm as [?|(r & E & _ & [Hs|[]] & _)]; [now left|right; eauto].
Qed.

Lemma okx_unmapped s :
  ~ is_Some (assoc s (symbol_mapping OKXAPI.self)) -> OKXAPI.visit_symbol s = mret tt.
Proof.
  intros Hs. unfold OKXAPI.visit_symbol.
  destruct (assoc s (symbol_mapping OKXAPI.self)); [exfalso; eauto|reflexivity].
Qed.

Lemma kucoin_unmapped s :
  ~ is_Some (assoc s (symbol_mapping KuCoinAPI.self)) ->
  KuCoinAPI.visit_symbol s = mret tt.
Proof.
  intros Hs. unfold KuCoinAPI.visit_symbol.
  destruct (assoc s (symbol_mapping KuCoinAPI.self)); [exfalso; eauto|reflexivity].
Qed.

(** X7. The OKX and KuCoin adapters go through the requested symbols in
    order and return at most one record for each, labelled with the
    adapter's exchange: the symbols of the result are a subsequence of the
    request.  A symbol without an instrument in the adapter's mapping is
    skipped without a request: the result and the world left behind are
    those of the request without such symbols. *)
Theorem per_symbol_adapters_follow_the_request (symbols : list string) (w : World) :
  let mapped (self : ExchangeAPI) :=
    filter (fun s => is_Some (assoc s (symbol_mapping self))) symbols in
  (exists rates w',
     OKXAPI.get_funding_rates symbols w = (Ok rates, w') /\
     Forall (record_of "OKX" OKXAPI.self symbols) rates /\
     OKXAPI.get_funding_rates (mapped OKXAPI.self) w = (Ok rates, w') /\
     map symbol rates `sublist_of` mapped OKXAPI.self) /\
  (exists rates w',
     KuCoinAPI.get_funding_rates symbols w = (Ok rates, w') /\
     Forall (record_of "KuCoin" KuCoinAPI.self symbols) rates /\
     KuCoinAPI.get_funding_rates (mapped KuCoinAPI.self) w = (Ok rates, w') /\
     map symbol rates `sublist_of` mapped KuCoinAPI.self).
Proof.
  intros mapped. subst mapped. cbv beta. split.
  - destruct (okx_answers symbols w) as (rates & w' & E & Hr).
    exists rates, w'. split; [exact E|]. split; [exact Hr|].
    revert E. unfold OKXAPI.get_funding_rates.
    rewrite !per_symbol_spec by apply okx_visit_appends_only.
    rewrite (per_symbol_filter _ _ _ _ okx_unmapped).
    intros [= <- <-]. split; [reflexivity|].
    rewrite <- (per_symbol_filter _ _ _ _ okx_unmapped).
    apply per_symbol_sublist. intros s.
    eapply one_record_symbol, okx_visit_one_record.
  - destruct (kucoin_answers symbols w) as (rates & w' & E & Hr).
    exists rates, w'. split; [exact E|]. split; [exact Hr|].
    revert E. unfold KuCoinAPI.get_funding_rates.
    rewrite !per_symbol_spec by apply kucoin_visit_appends_only.
    rewrite (per_symbol_filter _ _ _ _ kucoin_unmapped).
    intros [= <- <-]. split; [reflexivity|].
    rewrite <- (per_symbol_filter _ _ _ _ kucoin_unmapped).
    apply per_symbol_sublist. intros s.
    eapply one_record_symbol, kucoin_visit_one_record.
Qed.

(** *** The listing adapters *)

(** X8. When the listing request of Binance, Bybit or Bitget brings nothing
    usable (no response, a status other than 200, an undecodable or a falsy
    body), the adapter returns the empty list and makes no further request. *)
Theorem unusable_listing_gives_no_record (self : ExchangeAPI) (endpoint : string)
    (params : list (string * string)) (api : Adapter) (symbols : list string)
    (w : World) :
  In (self, endpoint, params, api) listing_requests ->
  unusable (fst (session_get (base_url self ++ "/" ++ endpoint) params w)) = true ->
  api symbols w
  = (Ok [], snd (session_get (base_url self ++ "/" ++ endpoint) params w)).
Proof.
  intros [E|[E|[E|[]]]]; injection E as <- <- <- <-; intros Hu.
  all: unfold BinanceAPI.get_funding_rates, BybitAPI.get_funding_rates,
         BitgetAPI.get_funding_rates, returning_list, try_except, mbind, M_bind,
         on_world, _make_request;
       cbn [world items];
       destruct (session_get _ _ w) as [[|status_code [body|]] w1]; cbn in Hu |- *;
       try reflexivity.
  all: destruct (status_code =? 200)%Z; cbn in Hu |- *; try reflexivity.
  all: destruct (truthy body); [discriminate|reflexivity].
Qed.

End AdapterFacts.

Section CollectorFacts.
Context `{Runtime}.

(** ** The listing loop of Binance *)

Lemma for_each_app {S X : Type} (body : X -> M S unit) (l1 l2 : list X) (s : S) :
  for_each (l1 ++ l2) body s
  = match for_each l1 body s with
    | (Ok _, s') => for_each l2 body s'
    | (Raise e, s') => (Raise e, s')
    end.
Proof.
  revert s. induction l1 as [|x l1 IH]; intros s; cbn; [reflexivity|].
  unfold mbind, M_bind. destruct (body x s) as [[[]|e] s1]; [apply IH|reflexivity].
Qed.

(** X9. Binance's loop over the listing is inside one [try]: an item whose
    processing raises ends the loop, the records of the items before it are
    returned and the items after it are not looked at. *)
Theorem binance_listing_ends_at_first_failure (symbols : list string) (w : World)
    (before after : list json) (bad : json) :
  let url := (base_url BinanceAPI.self ++ "/" ++ "fapi/v1/premiumIndex")%string in
  fst (session_get url [] w) = Response 200 (Some (JList (before ++ bad :: after))) ->
  (forall fr, exists e fr', BinanceAPI.visit_item symbols bad fr = (Raise e, fr')) ->
  fst (BinanceAPI.get_funding_rates symbols w)
  = Ok (items (snd (for_each before (BinanceAPI.visit_item symbols)
                      {| world := snd (session_get url [] w); items := [] |}))).
Proof.
  intros url Hget Hbad.
  unfold BinanceAPI.get_funding_rates, returning_list, try_except, mbind, M_bind,
    on_world, _make_request. cbn [world items]. fold url.
  destruct (session_get url [] w) as [o w1]. cbn in Hget. subst o. cbn.
  assert (Ht : match before ++ bad :: after with [] => false | _ => true end = true)
    by now destruct before.
  rewrite Ht. cbn. unfold lift_result. cbn. rewrite for_each_app.
  destruct (for_each before _ _) as [[[]|e] fr1]; [|reflexivity].
  cbn [for_each]. unfold mbind, M_bind.
  pose proof (binance_visit_one_record symbols bad fr1) as Hone.
  destruct (Hbad fr1) as (e & fr2 & E). rewrite E in *. cbn. now rewrite Hone.
Qed.

(** ** The collection loop over the built-in adapters *)

Lemma map_exchange_answers label self symbols rates :
  Forall (record_of label self symbols) rates ->
  map exchange rates = replicate (length rates) label /\
  Forall (fun r => In (symbol r) symbols) rates.
Proof.
  induction 1 as [|r rates (Hl & Hs & _) _ [IH1 IH2]]; [now split|].
  cbn. rewrite Hl, IH1. split; [reflexivity|]. now constructor.
Qed.

Lemma gathered_table (table : list (string * string * Adapter))
    (P : string * Adapter -> Prop) `{!forall kv, Decision (P kv)} symbols w :
  Forall (fun '(key, label, api) => exists self, answers_for label self api) table ->
  exists counts,
    length counts = length table /\
    let data :=
      fst (gathered (filter P (map (fun '(key, label, api) => (key, api)) table))
             symbols w) in
    map exchange data
    = concat (zip_with replicate counts (map (fun '(key, label, api) => label) table))
    /\ Forall (fun r => In (symbol r) symbols) data.
Proof.
  intros Ht. revert w. induction Ht as [|[[key label] api] table (self & Ha) _ IH];
    intros w.
  - exists []. repeat split. constructor.
  - cbn [map]. rewrite filter_cons. destruct (decide (P (key, api))) as [HP|HP].
    + cbn [gathered]. destruct (Ha symbols w) as (rates & w1 & -> & Hr).
      destruct (IH w1) as (counts & Hlen & Hm & Hs).
      destruct (gathered _ symbols w1) as [more w2]. cbn [fst] in *.
      apply map_exchange_answers in Hr as [Hr1 Hr2].
      exists (length rates :: counts). split; [cbn; now rewrite Hlen|].
      cbn. rewrite map_app, Hr1, Hm. split; [reflexivity|]. now apply Forall_app.
    + destruct (IH w) as (counts & Hlen & Hm & Hs).
      exists (0 :: counts). split; [cbn; now rewrite Hlen|]. cbn. now split.
Qed.

(** X10. The collector built from the configuration always returns a list;
    its records come grouped by exchange in the order Binance, Bybit, OKX,
    Bitget, KuCoin, whatever the order of the names in [ENABLED_EXCHANGES],
    and each is for a requested symbol. *)
Theorem collected_records_grouped_by_exchange (config : Config)
    (symbols : list string) (w : World) :
  exists data w' counts,
    collect_all_funding_rates (new_collector config) symbols w = (Ok data, w') /\
    length counts = length labels /\
    map exchange data = concat (zip_with replicate counts labels) /\
    Forall (fun r => In (symbol r) symbols) data.
Proof.
  rewrite collect_all_funding_rates_spec.
  destruct (gathered_table
              [("binance", "Binance", BinanceAPI.get_funding_rates);
               ("bybit", "Bybit", BybitAPI.get_funding_rates);
               ("okx", "OKX", OKXAPI.get_funding_rates);
               ("bitget", "Bitget", BitgetAPI.get_funding_rates);
               ("kucoin", "KuCoin", KuCoinAPI.get_funding_rates)]
              (fun kv => fst kv ∈ ENABLED_EXCHANGES config) symbols w)
    as (counts & Hlen & Hm & Hs).
  { repeat constructor;
      [ exists BinanceAPI.self; apply binance_answers
      | exists BybitAPI.self; apply bybit_answers
      | exists OKXAPI.self; apply okx_answers
      | exists BitgetAPI.self; apply bitget_answers
      | exists KuCoinAPI.self; apply kucoin_answers ]. }
  do 3 eexists. split; [reflexivity|]. split; [exact Hlen|]. split; [exact Hm|exact Hs].
Qed.

(** ** The connectivity test *)

Lemma test_connectivity_loop (apis : list (string * Adapter)) (c : Console) :
  Forall (fun kv => never_raises (snd kv)) apis ->
  exists w' verdicts,
    for_each apis (fun '(exchange_name, api) =>
      try_except
        (rates ← on_outside (api ["BTC"]);
         match rates with
         | _ :: _ => print_verdict exchange_name (Reachable (length rates))
         | [] => print_verdict exchange_name NoData
         end)
        (fun e => print_verdict exchange_name (Failed e))) c
    = (Ok tt, {| outside := w'; printed := printed c ++ verdicts |}) /\
    map fst verdicts = map fst apis /\
    Forall (fun kv => match snd kv with
                      | Reachable n => 1 <= n
                      | NoData => True
                      | Failed _ => False
                      end) verdicts.
Proof.
  intros Ha. revert c. induction Ha as [|[exchange_name api] apis Hapi _ IH]; intros c.
  - exists (outside c), []. cbn. rewrite app_nil_r. destruct c. now repeat split.
  - cbn [for_each]. unfold mbind at 1, M_bind at 1, try_except at 1,
      mbind at 1, M_bind at 1, on_outside at 1.
    cbn [snd] in Hapi. destruct (Hapi ["BTC"] (outside c)) as (rates & w1 & ->).
    destruct rates as [|r rates]; cbn.
    + destruct (IH {| outside := w1; printed := printed c ++ [(exchange_name, NoData)] |})
        as (w' & verdicts & -> & Hn & Hv).
      exists w', ((exchange_name, NoData) :: verdicts). cbn.
      rewrite <- app_assoc, Hn. repeat split. now constructor.
    + destruct (IH {| outside := w1;
                      printed := printed c
                        ++ [(exchange_name, Reachable (S (length rates)))] |})
        as (w' & verdicts & -> & Hn & Hv).
      exists w', ((exchange_name, Reachable (S (length rates))) :: verdicts). cbn.
      rewrite <- app_assoc, Hn. repeat split. constructor; [cbn; lia|assumption].
Qed.

Lemma answers_never_raises label self api : answers_for label self api -> never_raises api.
Proof. intros Ha symbols w. destruct (Ha symbols w) as (rates & w' & E & _). eauto. Qed.

(** X11. For the bot built from the configuration the connectivity test
    prints one verdict per enabled exchange, in the collector's order, and
    never the error verdict: the adapters swallow every failure, so an
    unreachable exchange shows as [NoData]. *)
Theorem connectivity_test_never_reports_an_error (config : Config) (w : World) :
  exists w' verdicts,
    test_connectivity (new_bot config) {| outside := w; printed := [] |}
    = (Ok tt, {| outside := w'; printed := verdicts |}) /\
    map fst verdicts = map fst (exchanges (new_collector config)) /\
    Forall (fun kv => match snd kv with
                      | Reachable n => 1 <= n
                      | NoData => True
                      | Failed _ => False
                      end) verdicts.
Proof.
  unfold test_connectivity.
  apply (test_connectivity_loop (exchanges (collector (new_bot config)))
           {| outside := w; printed := [] |}).
  unfold new_bot, new_collector. cbn [collector exchanges].
  apply Forall_forall. intros kv Hkv.
  apply list_elem_of_filter in Hkv as [_ Hkv].
  rewrite !elem_of_cons in Hkv.
  destruct Hkv as [->|[->|[->|[->|[->|Hkv]]]]]; cbn;
    [ eapply answers_never_raises, binance_answers
    | eapply answers_never_raises, bybit_answers
    | eapply answers_never_raises, okx_answers
    | eapply answers_never_raises, bitget_answers
    | eapply answers_never_raises, kucoin_answers
    | now apply elem_of_nil in Hkv ].
Qed.

End CollectorFacts.

(** ** The threshold filter of a scan *)

Lemma filter_all {A : Type} (P : A -> Prop) `{!forall x, Decision (P x)} (l : list A) :
  Forall P l -> filter P l = l.
Proof.
  induction 1 as [|x l Hx _ IH]; [reflexivity|].
  now rewrite filter_cons, decide_True, IH.
Qed.

Lemma filter_none {A : Type} (P : A -> Prop) `{!forall x, Decision (P x)} (l : list A) :
  Forall (fun x => ~ P x) l -> filter P l = [].
Proof.
  induction 1 as [|x l Hx _ IH]; [reflexivity|].
  now rewrite filter_cons, decide_False.
Qed.

Lemma filter_sorted_prefix {A : Type} (R : A -> A -> Prop) (P : A -> Prop)
    `{!forall x, Decision (P x)} (l : list A) :
  StronglySorted R l -> (forall x y, R x y -> P y -> P x) ->
  filter P l = take (length (filter P l)) l.
Proof.
  intros Hs HR. induction Hs as [|x l Hs IH Hx]; [reflexivity|].
  rewrite filter_cons. destruct (decide (P x)) as [Hp|Hp].
  - cbn. now rewrite <- IH.
  - replace (filter P l) with (@nil A); [reflexivity|].
    symmetry. apply filter_none. eapply Forall_impl; [exact Hx|]. eauto.
Qed.

Lemma find_sorted {Api : Type} (self : FundingRateCollector Api) funding_data :
  StronglySorted (desc net_profit_8h) (find_arbitrage_opportunities self funding_data).
Proof.
  rewrite find_arbitrage_opportunities_spec.
  apply (sorted_reverse_sorted net_profit_8h).
  apply Forall_forall. intros o Ho.
  apply list_elem_of_filter in Ho as [Hp _].
  apply FloatOrder.ltb_not_nan in Hp. tauto.
Qed.

Section ScanFacts.
Context `{Runtime}.
Variable self : FundingRateBot.

(** X12. The opportunities a scan keeps as profitable are the leading part
    of the sorted search result, so the five it displays are the five best
    found. *)
Theorem profitable_ops_lead_the_result (funding_data : list FundingRateData) :
  let opportunities := find_arbitrage_opportunities (collector self) funding_data in
  let profitable_ops := filter (meets_threshold self) opportunities in
  profitable_ops = take (length profitable_ops) opportunities /\
  take 5 profitable_ops = take (5 `min` length profitable_ops) opportunities.
Proof.
  intros opportunities profitable_ops.
  assert (E : profitable_ops = take (length profitable_ops) opportunities).
  { apply (filter_sorted_prefix (desc net_profit_8h)); [apply find_sorted|].
    intros x y Hxy Hy. unfold meets_threshold, desc in *.
    eapply FloatOrder.leb_trans; eassumption. }
  split; [exact E|]. rewrite E at 1. apply take_take.
Qed.

(** X13. With a threshold of zero or less the filter of a scan removes
    nothing: every opportunity the search returns counts as profitable. *)
Theorem nonpositive_threshold_keeps_all (funding_data : list FundingRateData) :
  (min_profit_threshold self <=? 0)%float = true ->
  filter (meets_threshold self)
         (find_arbitrage_opportunities (collector self) funding_data)
  = find_arbitrage_opportunities (collector self) funding_data.
Proof.
  intros Ht. apply filter_all, Forall_forall. intros o Ho.
  apply list_elem_of_In, In_find in Ho as [Hp _].
  unfold meets_threshold. unfold profitable in Hp.
  eapply FloatOrder.leb_trans; [exact Ht|]. now apply FloatOrder.ltb_leb.
Qed.

End ScanFacts.

(** ** The summary *)

Lemma exchange_append_map ks l d :
  NoDup ks ->
  exchange_append (map (fun e => (e, records_at e l)) ks) d
  = map (fun e => (e, records_at e (l ++ [d]))) ks
    ++ (if decide (exchange d ∈ ks) then [] else [(exchange d, [d])]).
Proof.
  unfold records_at.
  induction 1 as [|e ks He Hks IH]; simpl; [reflexivity|].
  destruct (String.eqb_spec e (exchange d)) as [->|Hne].
  - rewrite decide_True by apply list_elem_of_here. rewrite app_nil_r.
    rewrite filter_app, filter_cons, decide_True by reflexivity. f_equal.
    apply map_ext_in. intros e' He'. f_equal.
    rewrite filter_app, filter_cons, decide_False, app_nil_r; [reflexivity|].
    intros Heq. apply He. rewrite Heq. now apply list_elem_of_In.
  - rewrite IH. rewrite (filter_app _ l), filter_cons.
    rewrite (decide_False (P := exchange d = e)) by congruence.
    rewrite filter_nil, app_nil_r. simpl. do 2 f_equal.
    destruct (decide (exchange d ∈ ks)) as [Hin|Hin].
    + rewrite decide_True; [reflexivity|]. now apply list_elem_of_further.
    + rewrite decide_False; [reflexivity|].
      rewrite elem_of_cons. intros [?|?]; congruence.
Qed.

Lemma exchange_data_spec funding_data :
  foldl exchange_append [] funding_data
  = map (fun e => (e, records_at e funding_data))
        (first_occurrences (map exchange funding_data)).
Proof.
  induction funding_data as [|d l IH] using rev_ind; [reflexivity|].
  rewrite foldl_app. simpl. rewrite IH.
  rewrite exchange_append_map by apply NoDup_first_occurrences.
  rewrite map_app. simpl. rewrite first_occurrences_snoc.
  destruct (decide (exchange d ∈ first_occurrences (map exchange l))) as [Hin|Hin].
  - now rewrite app_nil_r.
  - rewrite map_app. simpl. do 2 f_equal. unfold records_at.
    rewrite filter_app, filter_cons, decide_True by reflexivity.
    replace (filter (fun d0 => exchange d0 = exchange d) l) with (@nil FundingRateData);
      [reflexivity|].
    symmetry. apply filter_none, Forall_forall. intros x Hx Hxe. apply Hin.
    apply elem_of_first_occurrences, list_elem_of_In. rewrite <- Hxe.
    apply in_map. now apply list_elem_of_In.
Qed.

(** X14. The summary lists every exchange that has a record exactly once,
    in the order of first occurrence, with the number of its records, which
    is at least one; the counts add up to the total printed below them. *)
Theorem summary_counts_add_up (funding_data : list FundingRateData) :
  let '(lines, total) := display_funding_summary funding_data in
  map fst lines = first_occurrences (map exchange funding_data) /\
  NoDup (map fst lines) /\
  Forall (fun line => snd line = length (records_at (fst line) funding_data) /\
                      1 <= snd line) lines /\
  sum_list (map snd lines) = total.
Proof.
  unfold display_funding_summary. rewrite exchange_data_spec, !map_map. cbn.
  set (ks := first_occurrences (map exchange funding_data)).
  split; [apply map_id|]. rewrite map_id.
  split; [apply NoDup_first_occurrences|]. split.
  - apply Forall_forall. intros line Hl.
    apply list_elem_of_In, in_map_iff in Hl as (e & <- & He). cbn.
    split; [reflexivity|].
    apply list_elem_of_In, elem_of_first_occurrences, list_elem_of_In, in_map_iff
      in He as (d & Hd & Hin).
    assert (Hd' : d ∈ records_at e funding_data).
    { apply list_elem_of_filter. split; [assumption|]. now apply list_elem_of_In. }
    destruct (records_at e funding_data); [now apply elem_of_nil in Hd'|cbn; lia].
  - apply (sum_length_classes exchange); [apply NoDup_first_occurrences|].
    intros x Hx. apply list_elem_of_In, elem_of_first_occurrences, list_elem_of_In.
    now apply in_map.
Qed.

(** ** The statements on the sample inputs *)

Lemma search_ignores_input_order_witness :
  Permutation
    (find_arbitrage_opportunities Sample.plain_collector Sample.wide_spread)
    (find_arbitrage_opportunities Sample.plain_collector Scenario.swapped_spread).
Proof.
  apply (search_ignores_input_order Sample.plain_collector
           Sample.wide_spread Scenario.swapped_spread).
  apply perm_swap.
Defined.

Lemma spread_beats_fees_witness :
  let o := Sample.wide_opportunity in
  In o (find_arbitrage_opportunities Sample.plain_collector Sample.wide_spread) /\
  (short_rate o <? long_rate o)%float = true /\
  (estimated_fees o <? rate_difference o)%float = true.
Proof.
  split; [left; reflexivity|].
  destruct (spread_beats_fees Sample.plain_collector Sample.wide_spread
              Sample.wide_opportunity) as (H1 & _ & _ & H2);
    [left; reflexivity|].
  exact (conj H1 H2).
Defined.

Lemma more_records_keep_opportunities_witness :
  Sample.wide_spread `sublist_of` Scenario.longer_spread /\
  In Sample.wide_opportunity
     (find_arbitrage_opportunities Sample.plain_collector Scenario.longer_spread).
Proof.
  assert (Hs : Sample.wide_spread `sublist_of` Scenario.longer_spread)
    by (apply sublist_cons; reflexivity).
  split; [exact Hs|].
  apply (more_records_keep_opportunities Sample.plain_collector
           Sample.wide_spread Scenario.longer_spread Sample.wide_opportunity Hs).
  left. reflexivity.
Defined.

Section ScenarioRuns.
#[local] Existing Instance Sample.runtime.

Lemma unusable_listing_gives_no_record_witness :
  In (BybitAPI.self, "v5/market/instruments-info", [("category", "linear")],
      BybitAPI.get_funding_rates) listing_requests /\
  BybitAPI.get_funding_rates ["BTC"; "ETH"] 0 = (Ok [], 0).
Proof.
  assert (Hin : In (BybitAPI.self, "v5/market/instruments-info",
                    [("category", "linear")], BybitAPI.get_funding_rates)
                   listing_requests) by (right; left; reflexivity).
  split; [exact Hin|].
  apply (unusable_listing_gives_no_record (H := Sample.runtime) BybitAPI.self "v5/market/instruments-info"
           [("category", "linear")] BybitAPI.get_funding_rates ["BTC"; "ETH"] 0 Hin).
  reflexivity.
Defined.

Lemma binance_listing_ends_at_first_failure_witness :
  fst (BinanceAPI.get_funding_rates ["BTC"; "ETH"; "SOL"] 0)
  = Ok [{| exchange := "Binance"; symbol := "BTC"; rate := 0.0002;
           timestamp := 0%Z; next_funding_time := Some 1700000000000000%Z;
           mark_price := Some 35000.5%float |}].
Proof.
  apply (binance_listing_ends_at_first_failure (H := Sample.runtime) ["BTC"; "ETH"; "SOL"] 0
           [JDict [("symbol", JStr "BTCUSDT"); ("lastFundingRate", JStr "0.0002");
                   ("markPrice", JStr "35000.5");
                   ("nextFundingTime", JInt 1700000000000)];
            JDict [("symbol", JStr "XRPUSDT"); ("lastFundingRate", JStr "0.0001")]]
           [JDict [("symbol", JStr "SOLUSDT"); ("lastFundingRate", JStr "0.0002")]]
           (JDict [("symbol", JStr "ETHUSDT"); ("lastFundingRate", JStr "n/a")])).
  - reflexivity.
  - intros fr. exists ValueError, fr. reflexivity.
Defined.

Lemma nonpositive_threshold_keeps_all_witness :
  filter (meets_threshold Scenario.open_bot)
         (find_arbitrage_opportunities (collector Scenario.open_bot) Sample.wide_spread)
  = find_arbitrage_opportunities (collector Scenario.open_bot) Sample.wide_spread.
Proof.
  apply (nonpositive_threshold_keeps_all Scenario.open_bot Sample.wide_spread).
  reflexivity.
Defined.

End ScenarioRuns.
